(** * Archive image-normalisation engine of media-organizer-rust

    Shallow embedding of [src/src/archive_cleaner.rs] and of
    [FileHandler] in [src/src/file_handler.rs], which dispatches a file on
    its extension and calls the archive cleaner.

    - [u32] arithmetic is written as [Z] with its release-mode wrap-around.
    - A [Path] is the list of its components.
    - The file system maps paths to file contents (a stdpp [gmap]).
    - A zip container is the list of its entries.
    - Pixels are [Z] values (packed RGBA8).
    - The environment of a pass, a [Schedule], fixes the order in which
      the paged workers take the writer lock, the panics of the image
      library, and how the writer's [start_file] and [write_all] fail.
    - Library calls the repository does not implement stay abstract:
      [image::load_from_memory], the lossless WebP encoder,
      [resize_exact], [thumbnail] and [to_rgba8], and for the file
      handler the tar reader, [start_file]'s name check, [rar_to_zip]
      (built on unrar), image decoding and saving, [ffmpeg] and the
      clock. They are Section Variables. *)

From Stdlib Require Import ZArith Lia List Ascii String Init.Byte.
From stdpp Require Import base gmap strings list.

Open Scope Z_scope.

(* ------------------------------------------------------------------ *)
(** ** Machine integers *)

Definition u32_modulus : Z := 2 ^ 32.

(** Release-mode [u32] arithmetic: results wrap modulo 2^32. *)
Definition u32 (z : Z) : Z := z mod u32_modulus.
Definition u32_add (a b : Z) : Z := u32 (a + b).
Definition u32_sub (a b : Z) : Z := u32 (a - b).
Definition u32_mul (a b : Z) : Z := u32 (a * b).
Definition u32_div (a b : Z) : Z := a / b.

(** [Iterator::sum] over [u32]. *)
Definition u32_sum (l : list Z) : Z := fold_left u32_add l 0.

(** [Iterator::max().unwrap_or(0)] over [u32]. *)
Definition max_or_zero (l : list Z) : Z := fold_left Z.max l 0.

(* ------------------------------------------------------------------ *)
(** ** Strings *)

Fixpoint list_prefix (a b : list ascii) : bool :=
  match a, b with
  | [], _ => true
  | x :: a', y :: b' => Ascii.eqb x y && list_prefix a' b'
  | _ :: _, [] => false
  end.

(** [str::ends_with]: byte-wise, case-sensitive. *)
Definition ends_with (s suffix : string) : bool :=
  list_prefix (rev (list_ascii_of_string suffix)) (rev (list_ascii_of_string s)).

(** Scans a reversed string for its first [c]: returns the reversed part
    before it and the (forward) part after it. *)
Fixpoint rsplit_rev (c : ascii) (r : list ascii) (after : list ascii)
  : option (list ascii * list ascii) :=
  match r with
  | [] => None
  | x :: r' =>
      if ascii_dec x c then Some (rev r', after)
      else rsplit_rev c r' (x :: after)
  end.

(** [str::rsplit_once(c)]: splits at the last occurrence of [c]. *)
Definition rsplit_once (s : string) (c : ascii) : option (string * string) :=
  match rsplit_rev c (rev (list_ascii_of_string s)) [] with
  | Some (b, a) => Some (string_of_list_ascii b, string_of_list_ascii a)
  | None => None
  end.

(** Decimal rendering of a number, as [format!("{}", n)]. *)
Fixpoint digits_aux (fuel n : nat) (acc : string) : string :=
  match fuel with
  | O => acc
  | S f =>
      let acc' := String (ascii_of_nat (48 + Nat.modulo n 10)) acc in
      if Nat.ltb n 10 then acc' else digits_aux f (Nat.div n 10) acc'
  end.

Definition string_of_nat (n : nat) : string := digits_aux (S n) n "".

(* ------------------------------------------------------------------ *)
(** ** Paths and the file system *)

Definition Path := list string.

(** [Path::file_name]: the last component, none for [..] or the empty
    path. *)
Definition path_file_name (p : Path) : option string :=
  match rev p with
  | [] => None
  | x :: _ => if String.eqb x ".." then None else Some x
  end.

(** [Path::parent]: all components but the last. *)
Definition path_parent (p : Path) : option Path :=
  match p with
  | [] => None
  | _ => Some (removelast p)
  end.

(** [Path::join] of one file name. *)
Definition path_join (dir : Path) (name : string) : Path := dir ++ [name].

Inductive io_error :=
| InvalidInput (msg : string)
| NotFound
| InvalidArchive
| ReadFailed
| Other (msg : string).

Inductive result (A E : Type) :=
| Ok (a : A)
| Err (e : E).
Arguments Ok {A E} a.
Arguments Err {A E} e.

(** [file_handler::extract_file_info]. *)
Definition extract_file_info (file_path : Path) : result (string * Path) io_error :=
  match path_file_name file_path with
  | None => Err (InvalidInput "Invalid file path: no file name")
  | Some filename =>
      let name :=
        match rsplit_once filename "."%char with
        | Some (n, _) => n
        | None => filename
        end in
      match path_parent file_path with
      | None => Err (InvalidInput "Invalid file path: no parent directory")
      | Some parent => Ok (name, parent)
      end
  end.

Inductive CompressionMethod := Stored | Deflated.

(** One entry of a zip container: [by_index] fails on a [Broken] entry;
    reading the bytes of [Entry] fails when its data is [None]. *)
Inductive ZipEntry :=
| Entry (name : string) (method : CompressionMethod) (data : option (list byte))
| Broken.

(** File contents: a zip container, or bytes that are not one. *)
Inductive FileData :=
| FZip (entries : list ZipEntry)
| FRaw (bytes : list byte).

Abbreviation FS := (gmap Path FileData).

(** [fs::rename]: moves the contents of [src] to [dst], replacing [dst]. *)
Definition fs_rename (fs : FS) (src dst : Path) : result FS io_error :=
  match fs !! src with
  | Some d => Ok (<[dst := d]> (delete src fs))
  | None => Err NotFound
  end.

(** A [ZipWriter<File>]: the path its file currently has and the entries
    appended so far, most recent first. The file stays open across a
    rename (the handle follows the file), and the container is written
    out when the writer is dropped. *)
Record ZipWriter := { zw_path : Path; zw_entries : list ZipEntry }.

Definition zip_start_and_write (w : ZipWriter) (name : string) (data : list byte)
  : ZipWriter :=
  {| zw_path := zw_path w;
     zw_entries := Entry name Stored (Some data) :: zw_entries w |}.

(** How [start_file] followed by [write_all] can fail: [start_file]
    returns an error and opens no entry, or [write_all] returns an error
    after [n] bytes of the data have gone into the entry. *)
Inductive WriteFault :=
| StartFileFails (e : io_error)
| WriteAllFails (n : nat) (e : io_error).

(** [zip_writer.start_file(name, Stored)?; zip_writer.write_all(&data)?]
    under the failure [fault] the environment causes, if any; on an error,
    the writer as the failure leaves it. *)
Definition zip_append (w : ZipWriter) (name : string) (data : list byte)
  (fault : option WriteFault) : result ZipWriter (io_error * ZipWriter) :=
  match fault with
  | None => Ok (zip_start_and_write w name data)
  | Some (StartFileFails e) => Err (e, w)
  | Some (WriteAllFails n e) => Err (e, zip_start_and_write w name (firstn n data))
  end.

(** Dropping the writer finalises the container into its file. *)
Definition zip_finalize (w : ZipWriter) (fs : FS) : FS :=
  <[zw_path w := FZip (rev (zw_entries w))]> fs.

(** [File::create] followed by [ZipWriter::new]. *)
Definition zip_create (fs : FS) (p : Path) : FS * ZipWriter :=
  (<[p := FRaw []]> fs, {| zw_path := p; zw_entries := [] |}).

(* ------------------------------------------------------------------ *)
(** ** Images *)

Record Image := { width : Z; height : Z; px : Z -> Z -> Z }.

(** [DynamicImage::new_rgba8]: transparent black. *)
Definition new_rgba8 (w h : Z) : Image := {| width := w; height := h; px := fun _ _ => 0 |}.

(** [GenericImage::copy_from]. *)
Definition copy_from (self other : Image) (x y : Z) : option Image :=
  if (width self <? u32_add (width other) x) || (height self <? u32_add (height other) y)
  then None
  else Some {| width := width self; height := height self;
               px := fun i k =>
                 if (x <=? i) && (i <? x + width other) && (y <=? k) && (k <? y + height other)
                 then px other (i - x) (k - y) else px self i k |}.

(** [DynamicImage::crop_imm]: the rectangle is first clamped to the image. *)
Definition crop_imm (img : Image) (x y w h : Z) : Image :=
  let x' := Z.min x (width img) in
  let y' := Z.min y (height img) in
  {| width := Z.min w (width img - x');
     height := Z.min h (height img - y');
     px := fun i k => px img (x' + i) (y' + k) |}.

(* ------------------------------------------------------------------ *)
(** ** The cleaner *)

Inductive ArchiveType := Manhwa | Manga.

Record ImageInfo := { info_width : Z; info_height : Z }.

Record ArchiveCleaner := {
  archive_type : ArchiveType;
  min_image_size : ImageInfo;
  archive_path : Path }.

(** [file_handler::IMAGE_SIZE]. *)
Definition IMAGE_SIZE : Z * Z := (1024, 1024).

Definition ArchiveCleaner_new (p : Path) : ArchiveCleaner :=
  {| archive_type := Manga;
     min_image_size := {| info_width := fst IMAGE_SIZE; info_height := snd IMAGE_SIZE |};
     archive_path := p |}.

Definition set_archive_type (c : ArchiveCleaner) (t : ArchiveType) : ArchiveCleaner :=
  {| archive_type := t; min_image_size := min_image_size c; archive_path := archive_path c |}.

Definition image_meets_criteria (c : ArchiveCleaner) (w h : Z) : bool :=
  ((u32_mul 3 w <=? h) && (info_height (min_image_size c) <? h))
  || ((h <? u32_mul 3 w) && (info_width (min_image_size c) <? w)
      && (info_height (min_image_size c) <? h)).

(** [should_write_archive]: mutates [archive_type] (threaded explicitly)
    and returns the decision. *)
Fixpoint should_write_loop (c : ArchiveCleaner) (imgs : list Image) : bool * ArchiveCleaner :=
  match imgs with
  | [] => (false, c)
  | img :: rest =>
      let w := width img in
      let h := height img in
      let c' := set_archive_type c (if u32_mul 3 w <=? h then Manhwa else Manga) in
      if image_meets_criteria c' w h then (true, c') else should_write_loop c' rest
  end.

Definition should_write_archive (c : ArchiveCleaner) (imgs : list Image)
  (max_images_to_check : nat) : bool * ArchiveCleaner :=
  should_write_loop c (firstn max_images_to_check imgs).

(** [is_image]. *)
Definition is_image (file_name : string) : bool :=
  ends_with file_name ".webp" || ends_with file_name ".jpg"
  || ends_with file_name ".jpeg" || ends_with file_name ".png".

(* ------------------------------------------------------------------ *)
(** ** The outcome of a pass and the paged-worker events *)

Inductive PassResult := ROk | RErr (e : io_error) | RPanic.

(** What a worker of [process_image] does, in order. *)
Inductive Event :=
| Lock | LockFailed | CheckCriteria | Resize | Encode | StartFile | WriteData
| Poison | Unlock.

#[global] Instance Event_eq_dec : EqDecision Event.
Proof. solve_decision. Defined.

Inductive WorkerResult := WOk | WErr (e : io_error) | WPanicked.

(** The [Mutex<ZipWriter<File>>] shared by the paged workers. *)
Record Mutex := { mx_poisoned : bool; mx_writer : ZipWriter }.

(** The environment of a rewrite pass: the order in which the paged
    workers of an [n]-image archive acquire the lock, which workers the
    image library panics in (while resizing or encoding), how the append
    of paged worker [i] fails, and how the append of strip slice [i]
    fails. *)
Record Schedule := {
  lock_order : nat -> list nat;
  panics_at : nat -> bool;
  write_fault : nat -> option WriteFault;
  slice_fault : nat -> option WriteFault
}.

Definition is_panicked (r : nat * WorkerResult) : bool :=
  match snd r with WPanicked => true | _ => false end.

(** The writer once its file has been renamed to [p]. *)
Definition zw_moved (w : ZipWriter) (p : Path) : ZipWriter :=
  {| zw_path := p; zw_entries := zw_entries w |}.

Section Engine.

(** [image::load_from_memory]. *)
Variable load_from_memory : list byte -> option Image.
(** [WebPEncoder::new_lossless(..).encode(..)] on an RGBA8 buffer. *)
Variable webp_encode_lossless : Image -> result (list byte) string.
(** [DynamicImage::resize_exact] with the Lanczos3 filter. *)
Variable resize_exact : Image -> Z -> Z -> Image.
(** [DynamicImage::thumbnail]. *)
Variable thumbnail : Image -> Z -> Z -> Image.
(** [DynamicImage::to_rgba8]. *)
Variable to_rgba8 : Image -> Image.

(** The loop of [read_images_from_archive] over the container entries. *)
Fixpoint read_entries (es : list ZipEntry) : result (list Image) io_error :=
  match es with
  | [] => Ok []
  | Broken :: _ => Err InvalidArchive
  | Entry name _ data :: rest =>
      if is_image name then
        match data with
        | None => Err ReadFailed
        | Some file_data =>
            match read_entries rest with
            | Err e => Err e
            | Ok imgs =>
                match load_from_memory file_data with
                | Some img => Ok (img :: imgs)
                | None => Ok imgs
                end
            end
        end
      else read_entries rest
  end.

Definition read_images_from_archive (c : ArchiveCleaner) (fs : FS)
  : result (list Image) io_error :=
  match fs !! archive_path c with
  | None => Err NotFound
  | Some (FRaw _) => Err InvalidArchive
  | Some (FZip es) => read_entries es
  end.

Definition encode_webp (img : Image) : result (list byte) string :=
  webp_encode_lossless (to_rgba8 img).

(** The loop of [combine_images]; [None] is the panic of [expect]. *)
Fixpoint paste_all (combined : Image) (max_width y_offset : Z) (imgs : list Image)
  : option Image :=
  match imgs with
  | [] => Some combined
  | img :: rest =>
      let resized_img := resize_exact img max_width (height img) in
      match copy_from combined (to_rgba8 resized_img) 0 y_offset with
      | None => None
      | Some combined' => paste_all combined' max_width (u32_add y_offset (height img)) rest
      end
  end.

Definition combine_images (imgs : list Image) : option Image :=
  let total_height := u32_sum (map height imgs) in
  let max_width := max_or_zero (map width imgs) in
  paste_all (new_rgba8 max_width total_height) max_width 0 imgs.

Definition crop_image (img : Image) (y_offset slice_bottom : Z) : Image :=
  crop_imm img 0 y_offset (width img) (u32_sub slice_bottom y_offset).

(** The slice of [process_manhwa_images] with index [slice_index]. *)
Definition manhwa_slice (combined : Image) (slice_height : Z) (slice_index : nat) : Image :=
  let si := Z.of_nat slice_index in
  let slice_bottom := Z.min (u32_mul (u32_add si 1) slice_height) (height combined) in
  crop_image combined (u32_mul si slice_height) slice_bottom.

Definition slice_name (slice_index : nat) : string :=
  string_of_nat (Z.to_nat (u32_add (Z.of_nat slice_index) 1)) +:+ ".webp".

(** [for slice_index in i..i+count]: encode the slice, append it;
    [faults j] is how the append of slice [j] fails. *)
Fixpoint write_slices (faults : nat -> option WriteFault) (combined : Image) (slice_height : Z)
  (i count : nat) (zw : ZipWriter) : result ZipWriter (io_error * ZipWriter) :=
  match count with
  | O => Ok zw
  | S k =>
      match encode_webp (manhwa_slice combined slice_height i) with
      | Err e => Err (Other e, zw)
      | Ok image_data =>
          match zip_append zw (slice_name i) image_data (faults i) with
          | Err (e, zw') => Err (e, zw')
          | Ok zw' => write_slices faults combined slice_height (S i) k zw'
          end
      end
  end.

Definition num_slices_of (total_height slice_height : Z) : Z :=
  u32_div (u32_sub (u32_add total_height slice_height) 1) slice_height.

Definition process_manhwa_images (c : ArchiveCleaner) (imgs : list Image) (fs : FS)
  (sched : Schedule) : FS * PassResult :=
  match extract_file_info (archive_path c) with
  | Err e => (fs, RErr e)
  | Ok (name, dir_path) =>
      let temp_archive_path := path_join dir_path (name +:+ ".temp.cbz") in
      let '(fs1, new_zip) := zip_create fs temp_archive_path in
      match combine_images imgs with
      | None => (zip_finalize new_zip fs1, RPanic)
      | Some combined =>
          let slice_height := info_height (min_image_size c) in
          let num_slices := num_slices_of (height combined) slice_height in
          match write_slices (slice_fault sched) combined slice_height 0 (Z.to_nat num_slices)
                  new_zip with
          | Err (e, zw) => (zip_finalize zw fs1, RErr e)
          | Ok zw =>
              let final_path := path_join dir_path (name +:+ ".cbz") in
              match fs_rename fs1 temp_archive_path final_path with
              | Err e => (zip_finalize zw fs1, RErr e)
              | Ok fs2 => (zip_finalize (zw_moved zw final_path) fs2, ROk)
              end
          end
      end
  end.

(** [process_image]: the lock is taken first and its guard lives until
    the function returns; [panics] is a panic of the image library while
    the image is resized, which poisons the lock during unwinding, and
    [fault] how the append fails. *)
Definition process_image (c : ArchiveCleaner) (index : nat) (img : Image) (m : Mutex)
  (panics : bool) (fault : option WriteFault) : Mutex * WorkerResult * list Event :=
  if mx_poisoned m then
    (m, WErr (Other "Failed to lock ZipWriter: poisoned lock"), [LockFailed])
  else if negb (image_meets_criteria c (width img) (height img)) then
    (m, WErr (Other "Processing error"), [Lock; CheckCriteria; Unlock])
  else
    let resized_image := thumbnail img (info_width (min_image_size c)) (info_height (min_image_size c)) in
    if panics then
      ({| mx_poisoned := true; mx_writer := mx_writer m |}, WPanicked,
       [Lock; CheckCriteria; Resize; Poison; Unlock])
    else
      match encode_webp resized_image with
      | Err e => (m, WErr (Other e), [Lock; CheckCriteria; Resize; Encode; Unlock])
      | Ok image_data =>
          let file_name := string_of_nat (index + 1) +:+ ".webp" in
          match zip_append (mx_writer m) file_name image_data fault with
          | Ok zw =>
              ({| mx_poisoned := false; mx_writer := zw |},
               WOk, [Lock; CheckCriteria; Resize; Encode; StartFile; WriteData; Unlock])
          | Err (e, zw) =>
              ({| mx_poisoned := false; mx_writer := zw |}, WErr e,
               match fault with
               | Some (StartFileFails _) => [Lock; CheckCriteria; Resize; Encode; StartFile; Unlock]
               | _ => [Lock; CheckCriteria; Resize; Encode; StartFile; WriteData; Unlock]
               end)
          end
      end.

(** The workers of [process_images_threaded]. Every step of a worker runs
    under the lock, so the run is the sequence of the workers in the
    order they acquire it. Returns the mutex, each worker's result and
    each worker's events, in lock order. *)
Fixpoint run_workers (c : ArchiveCleaner) (imgs : list Image) (order : list nat)
  (panics : nat -> bool) (faults : nat -> option WriteFault) (m : Mutex)
  : Mutex * list (nat * WorkerResult) * list (nat * list Event) :=
  match order with
  | [] => (m, [], [])
  | i :: rest =>
      match nth_error imgs i with
      | None => run_workers c imgs rest panics faults m
      | Some img =>
          let '(m1, r, tr) := process_image c i img m (panics i) (faults i) in
          let '(m2, rs, trs) := run_workers c imgs rest panics faults m1 in
          (m2, (i, r) :: rs, (i, tr) :: trs)
      end
  end.

(** [process_images_threaded]: one worker per image, spawned in index
    order, run in the order the schedule lets them take the lock. *)
Definition process_images_threaded (c : ArchiveCleaner) (imgs : list Image) (m : Mutex)
  (sched : Schedule) : Mutex * list (nat * WorkerResult) * list (nat * list Event) :=
  run_workers c imgs (lock_order sched (length imgs)) (panics_at sched) (write_fault sched) m.

Definition process_non_manhwa_images (c : ArchiveCleaner) (imgs : list Image) (fs : FS)
  (sched : Schedule) : FS * PassResult :=
  match extract_file_info (archive_path c) with
  | Err e => (fs, RErr e)
  | Ok (name, dir_path) =>
      let temp_archive_path := path_join dir_path (name +:+ ".temp.cbz") in
      let '(fs1, new_zip) := zip_create fs temp_archive_path in
      let '(m, results, _) :=
        process_images_threaded c imgs {| mx_poisoned := false; mx_writer := new_zip |} sched in
      (* [handle.join().expect("Thread panicked")] *)
      if existsb is_panicked results then (zip_finalize (mx_writer m) fs1, RPanic)
      else
        let final_path := path_join dir_path (name +:+ ".cbz") in
        match fs_rename fs1 temp_archive_path final_path with
        | Err e => (zip_finalize (mx_writer m) fs1, RErr e)
        | Ok fs2 => (zip_finalize (zw_moved (mx_writer m) final_path) fs2, ROk)
        end
  end.

Definition write_archive (c : ArchiveCleaner) (imgs : list Image) (fs : FS) (sched : Schedule)
  : FS * PassResult :=
  match archive_type c with
  | Manhwa => process_manhwa_images c imgs fs sched
  | Manga => process_non_manhwa_images c imgs fs sched
  end.

(** [clean_archive_file] (the error messages keep their fixed prefix). *)
Definition clean_archive_file (c : ArchiveCleaner) (max_images_to_check : nat) (fs : FS)
  (sched : Schedule) : FS * PassResult :=
  match read_images_from_archive c fs with
  | Err _ => (fs, RErr (Other "Failed to read images from archive"))
  | Ok images =>
      let '(b, c') := should_write_archive c images max_images_to_check in
      if b then
        match write_archive c' images fs sched with
        | (fs', RErr _) => (fs', RErr (Other "Failed to write archive"))
        | r => r
        end
      else (fs, ROk)
  end.

End Engine.

(* ------------------------------------------------------------------ *)
(** ** Concrete library behaviour used to run the model *)

Definition mk_img (w h : Z) : Image := {| width := w; height := h; px := fun _ _ => 0 |}.

(** Decodes a one-byte test payload to an image of fixed dimensions. *)
Definition demo_decode (bs : list byte) : option Image :=
  match bs with
  | [x01] => Some (mk_img 800 1000)
  | [x02] => Some (mk_img 800 1100)
  | [x03] => Some (mk_img 800 1050)
  | [x04] => Some (mk_img 1100 1100)
  | [x05] => Some (mk_img 700 2200)
  | [x06] => Some (mk_img 700 2300)
  | _ => None
  end.

Definition demo_encode (img : Image) : result (list byte) string := Ok [x00].
Definition demo_resize (img : Image) (w h : Z) : Image :=
  {| width := w; height := h; px := px img |}.
Definition demo_thumbnail (img : Image) (w h : Z) : Image :=
  {| width := Z.min w (width img); height := Z.min h (height img); px := px img |}.
Definition demo_to_rgba8 (img : Image) : Image := img.

Definition demo_sched : Schedule :=
  {| lock_order := fun n => seq 0 n; panics_at := fun _ => false;
     write_fault := fun _ => None; slice_fault := fun _ => None |}.

Definition demo_clean (p : Path) (fs : FS) (sched : Schedule) : FS * PassResult :=
  clean_archive_file demo_decode demo_encode demo_resize demo_thumbnail demo_to_rgba8
    (ArchiveCleaner_new p) 5 fs sched.

Definition book_zip : Path := ["lib"; "book.zip"].
Definition book_cbz : Path := ["lib"; "book.cbz"].

Definition fs_one (p : Path) (es : list ZipEntry) : FS := <[p := FZip es]> empty.

(** One paged page of 1100x1100. *)
Definition fs_paged : FS := fs_one book_zip [Entry "1.png" Deflated (Some [x04])].
(** One page of 800x1000, under the threshold. *)
Definition fs_small : FS := fs_one book_zip [Entry "1.png" Deflated (Some [x01])].
(** Pages of 800x1000, 800x1100 and 800x1050. *)
Definition fs_scenario1 : FS :=
  fs_one book_zip [Entry "1.png" Deflated (Some [x01]); Entry "2.png" Deflated (Some [x02]);
                   Entry "3.png" Deflated (Some [x03])].
(** A paged [.cbz] whose second page, 800x1000, is under the threshold. *)
Definition fs_mixed : FS :=
  fs_one book_cbz [Entry "1.png" Deflated (Some [x04]); Entry "2.png" Deflated (Some [x01])].

(** The mutex of a paged pass over [lib/book.zip], before any worker. *)
Definition demo_mutex : Mutex :=
  {| mx_poisoned := false; mx_writer := {| zw_path := ["lib"; "book.temp.cbz"]; zw_entries := [] |} |}.

(** Workers in index order; worker 0 panics in the image library. *)
Definition panic0_sched : Schedule :=
  {| lock_order := fun n => seq 0 n; panics_at := fun i => Nat.eqb i 0;
     write_fault := fun _ => None; slice_fault := fun _ => None |}.


(* ------------------------------------------------------------------ *)
(** ** Definitions following the spec's words *)

(** The layout kinds of the spec (section 3). *)
Inductive LayoutKind := Paged | Strip.

Definition kind_of_type (t : ArchiveType) : LayoutKind :=
  match t with Manhwa => Strip | Manga => Paged end.

(** Section 4.2: Strip when height is at least three times width. *)
Definition spec_kind (img : Image) : LayoutKind :=
  if 3 * width img <=? height img then Strip else Paged.

(** Section 4.2: the oversize criterion under the image's own kind. *)
Definition spec_criterion (thr : ImageInfo) (img : Image) : bool :=
  match spec_kind img with
  | Strip => info_height thr <? height img
  | Paged => (info_width thr <? width img) && (info_height thr <? height img)
  end.

(** Section 4.2: first match in the sampled prefix decides. *)
Fixpoint spec_scan (thr : ImageInfo) (imgs : list Image) : option LayoutKind :=
  match imgs with
  | [] => None
  | img :: rest => if spec_criterion thr img then Some (spec_kind img) else spec_scan thr rest
  end.

Definition spec_decision (thr : ImageInfo) (imgs : list Image) (max_images_to_check : nat)
  : option LayoutKind :=
  spec_scan thr (firstn max_images_to_check imgs).

(** Dimensions a decoder can hand over: [u32] values, [3 * width]
    without overflow. *)
Definition u32_dims (img : Image) : Prop :=
  0 <= width img /\ 3 * width img < u32_modulus.

(** ASCII lowercase of one character. *)
Definition lower_ascii (a : ascii) : ascii :=
  let n := nat_of_ascii a in
  if (Nat.leb 65 n && Nat.leb n 90)%bool then ascii_of_nat (n + 32) else a.

Definition lower_string (s : string) : string :=
  string_of_list_ascii (map lower_ascii (list_ascii_of_string s)).

Definition image_suffixes : list string := [".webp"; ".jpg"; ".jpeg"; ".png"].

Definition all_ascii : list ascii := map ascii_of_nat (seq 0 256).

Definition lower_preimages (b : ascii) : list ascii :=
  List.filter (fun a => Ascii.eqb (lower_ascii a) b) all_ascii.

(** Every spelling of a lowercase word up to ASCII case. *)
Fixpoint case_variants (l : list ascii) : list (list ascii) :=
  match l with
  | [] => [[]]
  | b :: l' => flat_map (fun a => map (cons a) (case_variants l')) (lower_preimages b)
  end.

(** Section 4.1: the images of the entries named as images, in container
    order, those that do not decode dropped; [None] for an I/O error
    (no such file, not a container, an entry that cannot be opened, an
    image entry whose bytes cannot be read). *)
Definition entries_readable (es : list ZipEntry) : bool :=
  forallb (fun e => match e with
                    | Broken => false
                    | Entry name _ d => negb (is_image name) || bool_decide (is_Some d)
                    end) es.

Definition image_entry_bytes (es : list ZipEntry) : list (list byte) :=
  flat_map (fun e => match e with
                     | Entry name _ (Some d) => if is_image name then [d] else []
                     | _ => []
                     end) es.

Definition spec_reader (decode : list byte -> option Image) (fs : FS) (p : Path)
  : option (list Image) :=
  match fs !! p with
  | Some (FZip es) =>
      if entries_readable es
      then Some (flat_map (fun d => match decode d with Some i => [i] | None => [] end)
                  (image_entry_bytes es))
      else None
  | _ => None
  end.

Definition ok_value {A E : Type} (r : result A E) : option A :=
  match r with Ok a => Some a | Err _ => None end.

(** Section 4.3: the canvas height is the sum of the heights, its width
    the largest width; image [k] starts at the sum of the heights before
    it. *)
Fixpoint sum_heights (imgs : list Image) : Z :=
  match imgs with [] => 0 | i :: rest => height i + sum_heights rest end.
Fixpoint spec_max_width (imgs : list Image) : Z :=
  match imgs with [] => 0 | i :: rest => Z.max (width i) (spec_max_width rest) end.

(** The name of an output entry: [<ordinal>.webp], stored. *)
Definition webp_entry (e : ZipEntry) : Prop :=
  exists k d, e = Entry (string_of_nat k +:+ ".webp") Stored (Some d).

(** Whether event [e] occurs while the worker holds the lock. *)
Fixpoint held_during (locked : bool) (tr : list Event) (e : Event) : bool :=
  match tr with
  | [] => false
  | x :: tr' =>
      (locked && bool_decide (x = e))
      || held_during (match x with Lock => true | Unlock => false | _ => locked end) tr' e
  end.


Definition variant_misses (sfx v : list ascii) : bool :=
  if decide (v = sfx) then true
  else forallb (fun t => negb (list_prefix (rev t) (rev v)) && negb (list_prefix (rev v) (rev t)))
         (map list_ascii_of_string image_suffixes).

(* ------------------------------------------------------------------ *)
(** ** [file_handler.rs] *)

(** [Path::extension]: the part of the file name after its last dot;
    none when the name has no dot, when its only dot is the first
    character, or for [..]. *)
Definition path_extension (p : Path) : option string :=
  match path_file_name p with
  | None => None
  | Some file =>
      if String.eqb file ".." then None
      else
        match rsplit_once file "."%char with
        | None => None
        | Some (before, after) => if String.eqb before "" then None else Some after
        end
  end.

(** [Path::display]. *)
Definition path_display (p : Path) : string := String.concat "/" p.

(** The text of [io::Error] for a missing file. *)
Definition not_found_text : string := "No such file or directory (os error 2)".

(** The names of the entries of a container. *)
Fixpoint entry_names (es : list ZipEntry) : list string :=
  match es with
  | [] => []
  | Entry n _ _ :: rest => n :: entry_names rest
  | Broken :: rest => entry_names rest
  end.

(** [SimpleFileOptions::default()]: deflate, the zip crate's default. *)
Definition default_method : CompressionMethod := Deflated.

(** [start_file] followed by the write of [data], with the given method. *)
Definition zip_write_entry (w : ZipWriter) (name : string) (m : CompressionMethod)
  (data : list byte) : ZipWriter :=
  {| zw_path := zw_path w; zw_entries := Entry name m (Some data) :: zw_entries w |}.

Record FileHandler := {
  dir_path : Path;
  file_path : Path;
  file_name : string }.

(** [FileHandler::new]; [None] is the panic of [unwrap]. *)
Definition FileHandler_new (archive_path : Path) : option FileHandler :=
  match extract_file_info archive_path with
  | Ok (file_name, dir_path) =>
      Some {| dir_path := dir_path; file_path := archive_path; file_name := file_name |}
  | Err _ => None
  end.

(** [Result<(), String>] of a handler, or a panic. *)
Inductive HandlerResult := HOk | HErr (msg : string) | HPanic.

(** One entry of [tar::Archive::entries]: [entry] or [path] failing, or a
    file with its path and the outcome of [read_to_end]. *)
Inductive TarEntry :=
| TarEntryErr (msg : string)
| TarPathErr (msg : string)
| TarFile (path : string) (data : result (list byte) string).

(** Whether an extension is one of the names of a [match] arm. *)
Definition ext_in (e : option string) (names : list string) : bool :=
  match e with
  | Some s => existsb (String.eqb s) names
  | None => false
  end.

Definition get_supported_extensions : list string :=
  ["zip"; "rar"; "tar"; "gz"; "jpg"; "jpeg"; "png"; "bmp"; "gif"; "webp"; "mp4"; "mkv";
   "srt"; "ass"].

Section Handlers.

Variable load_from_memory : list byte -> option Image.
Variable webp_encode_lossless : Image -> result (list byte) string.
Variable resize_exact : Image -> Z -> Z -> Image.
Variable thumbnail : Image -> Z -> Z -> Image.
Variable to_rgba8 : Image -> Image.
(** The entries of a tar file ([tar::Archive::entries] on its contents). *)
Variable tar_entries : FileData -> result (list TarEntry) string.
(** [ZipWriter::start_file]: the library's refusal of a name, given the
    names already in the container. *)
Variable start_file_error : list string -> string -> option string.
(** [FileHandler::rar_to_zip], built on the unrar library. *)
Variable rar_to_zip : FileHandler -> Path -> FS -> FS * HandlerResult.
(** [ImageReader::open(path)?.decode()] once the file is open. *)
Variable image_decode : Path -> FileData -> result Image string.
(** Saving as WebP / GIF: the bytes that reach the file, and the error. *)
Variable save_webp : Image -> list byte * option string.
Variable save_gif : Image -> list byte * option string.
(** The [ffmpeg] command: the file system it leaves, and its status. *)
Variable run_ffmpeg : FS -> Path -> Path -> FS * result (bool * string) string.
(** [SystemTime::now()] in seconds since the epoch. *)
Variable now_secs : nat.

(** [FileHandler::clean_archive_file]: the outcome is printed, not
    returned. *)
Definition FileHandler_clean_archive_file (fh : FileHandler) (fs : FS) (sched : Schedule)
  : FS * HandlerResult :=
  let '(fs', r) := clean_archive_file load_from_memory webp_encode_lossless resize_exact
                     thumbnail to_rgba8 (ArchiveCleaner_new (file_path fh)) 5 fs sched in
  (fs', match r with RPanic => HPanic | _ => HOk end).

Definition handle_zip_file (fh : FileHandler) (fs : FS) (sched : Schedule)
  : FS * HandlerResult :=
  match FileHandler_clean_archive_file fh fs sched with
  | (fs', HErr e) => (fs', HErr ("Failed to clean archive: " +:+ e))
  | r => r
  end.

(** The loop of [tar_to_zip]; every early return drops the writer, which
    finishes the container. *)
Fixpoint tar_copy (es : list TarEntry) (zw : ZipWriter) (fs : FS) : FS * result unit string :=
  match es with
  | [] => (zip_finalize zw fs, Ok tt)
  | TarEntryErr e :: _ => (zip_finalize zw fs, Err ("Failed to read tar entry: " +:+ e))
  | TarPathErr e :: _ => (zip_finalize zw fs, Err ("Failed to get entry path: " +:+ e))
  | TarFile path data :: rest =>
      match start_file_error (entry_names (zw_entries zw)) path with
      | Some e => (zip_finalize zw fs, Err ("Failed to start zip file entry: " +:+ e))
      | None =>
          match data with
          | Err e =>
              (zip_finalize (zip_write_entry zw path default_method []) fs,
               Err ("Failed to read tar entry data: " +:+ e))
          | Ok buffer => tar_copy rest (zip_write_entry zw path default_method buffer) fs
          end
      end
  end.

Definition tar_to_zip (fh : FileHandler) (zip_path : Path) (fs : FS) : FS * result unit string :=
  match fs !! file_path fh with
  | None => (fs, Err ("Failed to open tar file: " +:+ not_found_text))
  | Some tar_file =>
      let zip_file := <[zip_path := FRaw []]> fs in
      let zip_writer := {| zw_path := zip_path; zw_entries := [] |} in
      match tar_entries tar_file with
      | Err e => (zip_finalize zip_writer zip_file, Err ("Failed to read tar entries: " +:+ e))
      | Ok es => tar_copy es zip_writer zip_file
      end
  end.

Definition handle_rar_file (fh : FileHandler) (fs : FS) (sched : Schedule)
  : FS * HandlerResult :=
  let zip_path := path_join (dir_path fh) (file_name fh +:+ ".zip") in
  match rar_to_zip fh zip_path fs with
  | (fs1, HOk) => handle_zip_file fh fs1 sched
  | (fs1, HErr e) => (fs1, HErr ("Failed to extract RAR file: " +:+ e))
  | (fs1, HPanic) => (fs1, HPanic)
  end.

Definition handle_tar_file (fh : FileHandler) (fs : FS) (sched : Schedule)
  : FS * HandlerResult :=
  let zip_path := path_join (dir_path fh) (file_name fh +:+ ".zip") in
  match tar_to_zip fh zip_path fs with
  | (fs1, Ok _) => handle_zip_file fh fs1 sched
  | (fs1, Err e) => (fs1, HErr ("Failed to handle TAR file: " +:+ e))
  end.

(** [save_with_format] creates the file and then encodes into it. *)
Definition save_webp_at (p : Path) (img : Image) (fs : FS) : FS * option string :=
  let '(bytes, err) := save_webp img in (<[p := FRaw bytes]> fs, err).

Definition handle_image_file (fh : FileHandler) (fs : FS) : FS * HandlerResult :=
  match fs !! file_path fh with
  | None => (fs, HErr ("Failed to open image: " +:+ not_found_text))
  | Some d =>
      match image_decode (file_path fh) d with
      | Err e => (fs, HErr ("Failed to decode image: " +:+ e))
      | Ok image =>
          if ext_in (path_extension (file_path fh)) ["webp"] then (fs, HOk)
          else
            let image := thumbnail image (fst IMAGE_SIZE) (snd IMAGE_SIZE) in
            let webp_file_path := path_join (dir_path fh) (file_name fh +:+ ".webp") in
            let saved :=
              if negb (bool_decide (is_Some (fs !! webp_file_path))) then
                save_webp_at webp_file_path image fs
              else
                let new_name := file_name fh +:+ "_" +:+ string_of_nat now_secs +:+ ".webp" in
                save_webp_at (path_join (dir_path fh) new_name) image fs in
            match saved with
            | (fs1, Some e) => (fs1, HErr ("Failed to save image as webp: " +:+ e))
            | (fs1, None) =>
                match fs1 !! file_path fh with
                | None => (fs1, HErr ("Failed to remove old file: " +:+ not_found_text))
                | Some _ => (delete (file_path fh) fs1, HOk)
                end
            end
      end
  end.

Definition handle_gif_file (fh : FileHandler) (fs : FS) : FS * HandlerResult :=
  match fs !! file_path fh with
  | None => (fs, HErr ("Failed to open gif file: " +:+ not_found_text))
  | Some d =>
      match image_decode (file_path fh) d with
      | Err e => (fs, HErr ("Failed to decode gif file: " +:+ e))
      | Ok gif_image =>
          if (fst IMAGE_SIZE <? width gif_image) && (snd IMAGE_SIZE <? height gif_image) then
            let resized_image := thumbnail gif_image (fst IMAGE_SIZE) (snd IMAGE_SIZE) in
            let '(bytes, err) := save_gif resized_image in
            let fs1 := <[path_join (dir_path fh) (file_name fh +:+ ".gif") := FRaw bytes]> fs in
            match err with
            | Some e => (fs1, HErr ("Failed to save gif file: " +:+ e))
            | None => (fs1, HOk)
            end
          else (fs, HOk)
      end
  end.

Definition handle_video_file (fh : FileHandler) (fs : FS) : FS * HandlerResult :=
  match run_ffmpeg fs (file_path fh) (path_join (dir_path fh) (file_name fh +:+ ".mp4")) with
  | (fs1, Err e) => (fs1, HErr ("Failed to execute ffmpeg command: " +:+ e))
  | (fs1, Ok (success, stderr)) =>
      if negb success then (fs1, HErr ("FFmpeg command failed: " +:+ stderr))
      else
        match fs1 !! file_path fh with
        | None => (fs1, HErr ("Failed to remove old video file: " +:+ not_found_text))
        | Some _ => (delete (file_path fh) fs1, HOk)
        end
  end.

Definition handle_subtitle_file (fh : FileHandler) (fs : FS) : FS * HandlerResult := (fs, HOk).

(** [FileHandler::clean]: dispatch on the extension. *)
Definition FileHandler_clean (fh : FileHandler) (fs : FS) (sched : Schedule)
  : FS * HandlerResult :=
  let ext := path_extension (file_path fh) in
  if ext_in ext ["zip"] then handle_zip_file fh fs sched
  else if ext_in ext ["rar"] then handle_rar_file fh fs sched
  else if ext_in ext ["tar"; "gz"] then handle_tar_file fh fs sched
  else if ext_in ext ["jpg"; "jpeg"; "png"; "bmp"] then handle_image_file fh fs
  else if ext_in ext ["gif"] then handle_gif_file fh fs
  else if ext_in ext ["srt"; "ass"] then handle_subtitle_file fh fs
  else if ext_in ext ["mp4"; "mkv"] then handle_video_file fh fs
  else (fs, HErr ("Unsupported file format: " +:+ path_display (file_path fh))).

End Handlers.

(** What an append of [d] under the failure [f] leaves in the container:
    the whole of [d], its first [n] bytes when [write_all] fails after
    [n] bytes, no entry when [start_file] fails. *)
Definition fault_data (f : option WriteFault) (d : list byte) : option (list byte) :=
  match f with
  | None => Some d
  | Some (StartFileFails _) => None
  | Some (WriteAllFails n _) => Some (firstn n d)
  end.

(** The entry the paged worker for image [i] leaves when it neither
    panics nor finds the lock poisoned: one [<i+1>.webp] when the image
    meets the criterion, its thumbnail encodes and [start_file] does not
    fail, nothing otherwise. *)
Definition paged_entry (webp_encode_lossless : Image -> result (list byte) string)
  (thumbnail : Image -> Z -> Z -> Image) (to_rgba8 : Image -> Image)
  (c : ArchiveCleaner) (fault : option WriteFault) (i : nat) (img : Image) : list ZipEntry :=
  if image_meets_criteria c (width img) (height img) then
    match encode_webp webp_encode_lossless to_rgba8
            (thumbnail img (info_width (min_image_size c)) (info_height (min_image_size c))) with
    | Ok d =>
        match fault_data fault d with
        | Some d' => [Entry (string_of_nat (S i) +:+ ".webp") Stored (Some d')]
        | None => []
        end
    | Err _ => []
    end
  else [].

(** The entries the paged worker for each index contributes. *)
Definition worker_entries (webp_encode_lossless : Image -> result (list byte) string)
  (thumbnail : Image -> Z -> Z -> Image) (to_rgba8 : Image -> Image)
  (c : ArchiveCleaner) (faults : nat -> option WriteFault) (imgs : list Image) (i : nat)
  : list ZipEntry :=
  match nth_error imgs i with
  | Some img => paged_entry webp_encode_lossless thumbnail to_rgba8 c (faults i) i img
  | None => []
  end.



(** Reads a decimal rendering back, [v] being the value of the digits
    before [s]. *)
Fixpoint dec_val (s : string) (v : nat) : nat :=
  match s with
  | EmptyString => v
  | String a s' => dec_val s' (v * 10 + (nat_of_ascii a - 48))
  end.

(** Test instances of the libraries behind [file_handler.rs]. *)
Definition demo_tar_entries (d : FileData) : result (list TarEntry) string :=
  match d with
  | FRaw bs => Ok [TarFile "1.png" (Ok bs)]
  | FZip _ => Err "invalid tar header"
  end.
Definition demo_start_file_error (names : list string) (n : string) : option string :=
  if existsb (String.eqb n) names then Some "Duplicate filename" else None.
Definition demo_rar_to_zip (fh : FileHandler) (zip_path : Path) (fs : FS) : FS * HandlerResult :=
  (fs, HErr "unrar is not available").
Definition demo_image_decode (p : Path) (d : FileData) : result Image string :=
  match d with
  | FRaw bs => match demo_decode bs with Some img => Ok img | None => Err "unsupported" end
  | FZip _ => Err "unsupported"
  end.
Definition demo_save (img : Image) : list byte * option string := ([x00], None).
Definition demo_ffmpeg (fs : FS) (input output : Path) : FS * result (bool * string) string :=
  (fs, Err "No such file or directory (os error 2)").

Definition demo_handle (fh : FileHandler) (fs : FS) (sched : Schedule) : FS * HandlerResult :=
  FileHandler_clean demo_decode demo_encode demo_resize demo_thumbnail demo_to_rgba8
    demo_tar_entries demo_start_file_error demo_rar_to_zip demo_image_decode demo_save demo_save
    demo_ffmpeg 42 fh fs sched.

Definition cover_png : Path := ["lib"; "cover.png"].
Definition cover_webp : Path := ["lib"; "cover.webp"].
Definition cover_42_webp : Path := ["lib"; "cover_42.webp"].
Definition book_rar : Path := ["lib"; "book.rar"].
Definition movie_mp4 : Path := ["lib"; "movie.mp4"].

(** The handler built by [FileHandler::new] (a placeholder where it
    panics). *)
Definition demo_fh (p : Path) : FileHandler :=
  match FileHandler_new p with
  | Some fh => fh
  | None => {| dir_path := []; file_path := p; file_name := "" |}
  end.

(** An [ffmpeg] that succeeds and writes one byte to its output. *)
Definition demo_ffmpeg_ok (fs : FS) (input output : Path) : FS * result (bool * string) string :=
  (<[output := FRaw [x00]]> fs, Ok (true, "")).

Definition fs_covers : FS := <[cover_png := FRaw [x04]]> (<[cover_webp := FRaw [x01]]> empty).
Definition fs_mp4 : FS := <[movie_mp4 := FRaw [x01]]> empty.

Example is_image_png : is_image "page01.png" = true. Proof. reflexivity. Qed.
Example is_image_upper : is_image "page01.PNG" = false. Proof. reflexivity. Qed.
Example rsplit_ex : rsplit_once "a.b.cbz" "."%char = Some ("a.b", "cbz"). Proof. reflexivity. Qed.
Example name_ex : string_of_nat 120 = "120". Proof. reflexivity. Qed.
Example efi_ex : extract_file_info ["lib"; "book.zip"] = Ok ("book", ["lib"]).
Proof. reflexivity. Qed.
Example sw_ex :
  fst (should_write_archive (ArchiveCleaner_new []) [mk_img 800 1000; mk_img 800 1100] 5) = false.
Proof. reflexivity. Qed.
Example paged_ex :
  (demo_clean book_zip (fs_one book_zip [Entry "1.png" Deflated (Some [x04])]) demo_sched).1
    !! book_cbz = Some (FZip [Entry "1.webp" Stored (Some [x00])]).
Proof. vm_compute. reflexivity. Qed.
Example strip_ex :
  (demo_clean book_zip (fs_one book_zip [Entry "1.png" Deflated (Some [x05]);
                                         Entry "2.png" Deflated (Some [x06])]) demo_sched).1
    !! book_cbz =
  Some (FZip (map (fun n => Entry (string_of_nat n +:+ ".webp") Stored (Some [x00])) [1;2;3;4;5]%nat)).
Proof. vm_compute. reflexivity. Qed.

(* ------------------------------------------------------------------ *)
(** ** Facts about the layout classifier and the file-name filter *)

Lemma u32_mul_3_small (w : Z) : 0 <= w -> 3 * w < u32_modulus -> u32_mul 3 w = 3 * w.
Proof. intros. unfold u32_mul, u32. apply Z.mod_small. lia. Qed.

Lemma image_meets_criteria_spec (c : ArchiveCleaner) (img : Image) :
  u32_dims img ->
  image_meets_criteria c (width img) (height img) = spec_criterion (min_image_size c) img.
Proof.
  intros [H0 H3]. unfold image_meets_criteria, spec_criterion, spec_kind.
  rewrite u32_mul_3_small by lia.
  destruct (3 * width img <=? height img) eqn:E.
  - apply Z.leb_le in E. replace (height img <? 3 * width img) with false
      by (symmetry; apply Z.ltb_ge; lia).
    now destruct (info_height _ <? _).
  - apply Z.leb_gt in E. replace (height img <? 3 * width img) with true
      by (symmetry; apply Z.ltb_lt; lia).
    reflexivity.
Qed.

Lemma set_archive_type_size (c : ArchiveCleaner) (t : ArchiveType) :
  min_image_size (set_archive_type c t) = min_image_size c.
Proof. reflexivity. Qed.

Lemma should_write_loop_spec (c : ArchiveCleaner) (imgs : list Image) :
  Forall u32_dims imgs ->
  match spec_scan (min_image_size c) imgs with
  | Some k => (should_write_loop c imgs).1 = true
              /\ kind_of_type (archive_type (should_write_loop c imgs).2) = k
  | None => (should_write_loop c imgs).1 = false
  end.
Proof.
  revert c. induction imgs as [|img rest IH]; intros c Hd; [reflexivity|].
  inversion Hd as [|? ? Himg Hrest]; subst.
  cbn [should_write_loop spec_scan].
  rewrite image_meets_criteria_spec by exact Himg. rewrite set_archive_type_size.
  destruct (spec_criterion (min_image_size c) img) eqn:Ec.
  - split; [reflexivity|]. cbn. unfold spec_kind.
    destruct Himg as [H0 H3]. rewrite u32_mul_3_small by lia.
    now destruct (3 * width img <=? height img).
  - specialize (IH (set_archive_type c (if u32_mul 3 (width img) <=? height img
                                        then Manhwa else Manga)) Hrest).
    rewrite set_archive_type_size in IH. exact IH.
Qed.

Lemma Forall_firstn_u32 (n : nat) (imgs : list Image) :
  Forall u32_dims imgs -> Forall u32_dims (firstn n imgs).
Proof.
  revert imgs. induction n as [|n IH]; intros [|x l] H; cbn; auto.
  inversion H; subst. constructor; auto.
Qed.

(** ** C3: first-match classification.
    For images with [u32] dimensions ([3 * width] fits in 32 bits, as for
    every image the decoder's allocation limit lets through), the
    classifier scans at most [max_images_to_check] images in order, takes
    Strip when height >= 3 * width and Paged otherwise, tests the image
    against its own kind's criterion, and stops at the first image that
    meets it with "rewrite with this image's kind"; when no sampled image
    meets it, the decision is "do not rewrite". [spec_decision] writes
    this rule as the spec states it. *)
Theorem should_write_archive_first_match (c : ArchiveCleaner) (imgs : list Image)
  (max_images_to_check : nat) :
  Forall u32_dims imgs ->
  match spec_decision (min_image_size c) imgs max_images_to_check with
  | Some k => (should_write_archive c imgs max_images_to_check).1 = true
              /\ kind_of_type (archive_type (should_write_archive c imgs max_images_to_check).2) = k
  | None => (should_write_archive c imgs max_images_to_check).1 = false
  end.
Proof.
  intros H. unfold spec_decision, should_write_archive.
  apply should_write_loop_spec, Forall_firstn_u32, H.
Qed.

Lemma list_ascii_of_string_app (a b : string) :
  list_ascii_of_string (a +:+ b) = list_ascii_of_string a ++ list_ascii_of_string b.
Proof. induction a as [|x a IH]; simpl; [reflexivity | now rewrite IH]. Qed.

Lemma list_prefix_app (x y z : list ascii) :
  list_prefix x (y ++ z) = true -> list_prefix x y = true \/ list_prefix y x = true.
Proof.
  revert y. induction x as [|a x IH]; intros [|b y]; simpl; intros H; auto.
  apply andb_prop in H as [Hab H]. apply Ascii.eqb_eq in Hab. subst b.
  rewrite Ascii.eqb_refl. simpl. exact (IH y H).
Qed.

Lemma in_all_ascii (a : ascii) : In a all_ascii.
Proof.
  pose proof (nat_ascii_bounded a) as Hb.
  assert (Hs : In (nat_of_ascii a) (seq 0 256)) by (apply in_seq; split; simpl; lia).
  pose proof (in_map ascii_of_nat (seq 0 256) (nat_of_ascii a) Hs) as Hm.
  rewrite ascii_nat_embedding in Hm. exact Hm.
Qed.

Lemma in_case_variants (v : list ascii) : In v (case_variants (map lower_ascii v)).
Proof.
  induction v as [|a v IH]; cbn [map case_variants]; [now left|].
  apply in_flat_map. exists a. split.
  - apply filter_In. split; [apply in_all_ascii | apply Ascii.eqb_refl].
  - now apply in_map.
Qed.

(** No case variant of an image suffix other than the suffix itself is,
    or ends with, an image suffix (checked on the finite variant sets). *)
Lemma variants_miss_all :
  forallb (fun sfx => forallb (variant_misses sfx) (case_variants sfx))
    (map list_ascii_of_string image_suffixes) = true.
Proof. vm_compute. reflexivity. Qed.

Lemma ends_with_variant (prefix v sfx : string) :
  In sfx image_suffixes -> lower_string v = sfx -> v <> sfx ->
  forall t, In t image_suffixes -> ends_with (prefix +:+ v) t = false.
Proof.
  intros Hs Hl Hne t Ht.
  assert (Hm : map lower_ascii (list_ascii_of_string v) = list_ascii_of_string sfx).
  { rewrite <- Hl. unfold lower_string. now rewrite list_ascii_of_string_of_list_ascii. }
  pose proof (in_case_variants (list_ascii_of_string v)) as Hin. rewrite Hm in Hin.
  pose proof variants_miss_all as Hall.
  apply forallb_forall with (x := list_ascii_of_string sfx) in Hall; [|now apply in_map].
  apply forallb_forall with (x := list_ascii_of_string v) in Hall; [|exact Hin].
  unfold variant_misses in Hall.
  destruct (decide (list_ascii_of_string v = list_ascii_of_string sfx)) as [E|_].
  { exfalso. apply Hne. rewrite <- (string_of_list_ascii_of_string v), E.
    apply string_of_list_ascii_of_string. }
  apply forallb_forall with (x := list_ascii_of_string t) in Hall; [|now apply in_map].
  apply andb_prop in Hall as [H1 H2]. apply negb_true_iff in H1, H2.
  unfold ends_with. rewrite list_ascii_of_string_app, rev_app_distr.
  destruct (list_prefix (rev (list_ascii_of_string t))
             (rev (list_ascii_of_string v) ++ rev (list_ascii_of_string prefix))) eqn:E;
    [|reflexivity].
  destruct (list_prefix_app _ _ _ E) as [E'|E']; congruence.
Qed.

(* ------------------------------------------------------------------ *)
(** ** Paths of the rewrite *)

Lemma rsplit_rev_some (c : ascii) (r after b a : list ascii) :
  ~ In c after -> rsplit_rev c r after = Some (b, a) ->
  rev r ++ after = b ++ c :: a /\ ~ In c a.
Proof.
  revert after. induction r as [|x r IH]; intros after Hn H; [discriminate|].
  cbn in H. destruct (ascii_dec x c) as [->|Hx].
  - injection H as <- <-. cbn. rewrite <- app_assoc. auto.
  - destruct (IH (x :: after)) as [E Ha]; [intros [?|?]; auto|exact H|].
    split; [|exact Ha]. cbn. rewrite <- app_assoc. exact E.
Qed.

Lemma rsplit_rev_none (c : ascii) (r after : list ascii) :
  ~ In c after -> rsplit_rev c r after = None -> ~ In c (rev r ++ after).
Proof.
  revert after. induction r as [|x r IH]; intros after Hn H; [exact Hn|].
  cbn in H. destruct (ascii_dec x c) as [->|Hx]; [discriminate|].
  cbn. rewrite <- app_assoc. apply IH; [intros [?|?]; auto|exact H].
Qed.

Lemma rsplit_once_some (s b a : string) (c : ascii) :
  rsplit_once s c = Some (b, a) ->
  list_ascii_of_string s = list_ascii_of_string b ++ c :: list_ascii_of_string a
  /\ ~ In c (list_ascii_of_string a).
Proof.
  unfold rsplit_once. destruct (rsplit_rev c _ []) as [[b' a']|] eqn:E; [|discriminate].
  intros H. injection H as <- <-. rewrite !list_ascii_of_string_of_list_ascii.
  apply rsplit_rev_some in E as [E Ha]; [|intros []].
  rewrite rev_involutive, app_nil_r in E. auto.
Qed.

Lemma rsplit_once_none (s : string) (c : ascii) :
  rsplit_once s c = None -> ~ In c (list_ascii_of_string s).
Proof.
  unfold rsplit_once. destruct (rsplit_rev c _ []) as [[b' a']|] eqn:E; [discriminate|].
  intros _. apply rsplit_rev_none in E; [|intros []].
  rewrite rev_involutive, app_nil_r in E. exact E.
Qed.

Lemma path_file_name_join (d : Path) (t f : string) :
  path_file_name (path_join d t) = Some f -> f = t.
Proof.
  unfold path_file_name, path_join. rewrite rev_unit.
  destruct (String.eqb t ".."); [discriminate|]. now intros [= ->].
Qed.

(** The temporary container is never the input file. *)
Lemma extract_file_info_temp_ne (p : Path) (stem : string) (dir : Path) :
  extract_file_info p = Ok (stem, dir) -> p <> path_join dir (stem +:+ ".temp.cbz").
Proof.
  intros H Heq. unfold extract_file_info in H.
  destruct (path_file_name p) as [fname|] eqn:Hf; [|discriminate].
  rewrite Heq in Hf. apply path_file_name_join in Hf.
  destruct (path_parent p); [|discriminate].
  destruct (rsplit_once fname "."%char) as [[b a]|] eqn:Hr;
    injection H as Hs _; subst fname.
  - subst b. apply rsplit_once_some in Hr as [E Ha].
    rewrite list_ascii_of_string_app in E. apply app_inv_head in E.
    cbn in E. injection E as E. rewrite <- E in Ha. apply Ha. cbn. tauto.
  - apply rsplit_once_none in Hr. apply Hr.
    rewrite list_ascii_of_string_app. apply in_or_app. right. cbn. tauto.
Qed.




Section Facts.

Variable load_from_memory : list byte -> option Image.
Variable webp_encode_lossless : Image -> result (list byte) string.
Variable resize_exact : Image -> Z -> Z -> Image.
Variable thumbnail : Image -> Z -> Z -> Image.
Variable to_rgba8 : Image -> Image.

Local Abbreviation clean :=
  (clean_archive_file load_from_memory webp_encode_lossless resize_exact thumbnail to_rgba8).
Local Abbreviation read_images := (read_images_from_archive load_from_memory).
Local Abbreviation manhwa :=
  (process_manhwa_images webp_encode_lossless resize_exact to_rgba8).
Local Abbreviation paged := (process_non_manhwa_images webp_encode_lossless thumbnail to_rgba8).

(** ** C10: the suffix filter is case-sensitive.
    An entry whose name ends in a case variant of an image suffix other
    than the lowercase suffix itself (".PNG", ".Jpg", ...) is not an image
    for [is_image], and the archive reader passes over it. *)
Theorem is_image_case_sensitive (prefix v sfx : string) (m : CompressionMethod)
  (d : option (list byte)) (es : list ZipEntry) :
  In sfx image_suffixes -> lower_string v = sfx -> v <> sfx ->
  is_image (prefix +:+ v) = false
  /\ read_entries load_from_memory (Entry (prefix +:+ v) m d :: es)
     = read_entries load_from_memory es.
Proof.
  intros Hs Hl Hne.
  assert (Hf : is_image (prefix +:+ v) = false).
  { pose proof (ends_with_variant prefix v sfx Hs Hl Hne) as E.
    unfold is_image. rewrite !E by (cbn; tauto). reflexivity. }
  split; [exact Hf|]. cbn. now rewrite Hf.
Qed.

Lemma image_meets_criteria_type (c : ArchiveCleaner) (t : ArchiveType) (w h : Z) :
  image_meets_criteria (set_archive_type c t) w h = image_meets_criteria c w h.
Proof. reflexivity. Qed.

Lemma should_write_loop_false (c : ArchiveCleaner) (l : list Image) :
  forallb (fun img => negb (image_meets_criteria c (width img) (height img))) l = true ->
  (should_write_loop c l).1 = false.
Proof.
  revert c. induction l as [|img l IH]; intros c H; [reflexivity|].
  cbn in H. apply andb_prop in H as [H1 H2]. apply negb_true_iff in H1.
  cbn. rewrite image_meets_criteria_type, H1.
  apply IH. exact H2.
Qed.

Lemma clean_no_rewrite (c : ArchiveCleaner) (n : nat) (fs : FS) (sched : Schedule)
  (imgs : list Image) :
  read_images c fs = Ok imgs -> (should_write_archive c imgs n).1 = false ->
  clean c n fs sched = (fs, ROk).
Proof.
  intros Hr Hw. unfold clean_archive_file. rewrite Hr.
  destruct (should_write_archive c imgs n) as [b c'] eqn:E. cbn in Hw. now subst.
Qed.

(** ** C4: no rewrite, no change.
    When none of the first [max_images_to_check] images of the archive
    meets the oversize criterion, a cleaning pass leaves the whole file
    system as it was: no container is created and the original is not
    replaced. *)
Theorem clean_archive_file_untouched (c : ArchiveCleaner) (n : nat) (fs : FS)
  (sched : Schedule) :
  (forall imgs, read_images c fs = Ok imgs ->
     forallb (fun img => negb (image_meets_criteria c (width img) (height img)))
       (firstn n imgs) = true) ->
  (clean c n fs sched).1 = fs.
Proof.
  intros H. destruct (read_images c fs) as [imgs|e] eqn:Hr.
  - rewrite (clean_no_rewrite c n fs sched imgs Hr); [reflexivity|].
    apply should_write_loop_false. exact (H imgs eq_refl).
  - unfold clean_archive_file. now rewrite Hr.
Qed.

(** ** C2 (amended): scenario 1 does not trigger a rewrite.
    For pages of 800x1000, 800x1100 and 800x1050 with the 1024x1024
    threshold and five sampled images, every page is Paged and none is
    wider than 1024, so no page meets the Paged criterion: the decision is
    "do not rewrite" and the pass leaves the file system unchanged. *)
Theorem scenario1_no_rewrite (p : Path) (fs : FS) (sched : Schedule) (imgs : list Image) :
  read_images (ArchiveCleaner_new p) fs = Ok imgs ->
  map (fun img => (width img, height img)) imgs = [(800, 1000); (800, 1100); (800, 1050)] ->
  (should_write_archive (ArchiveCleaner_new p) imgs 5).1 = false
  /\ clean (ArchiveCleaner_new p) 5 fs sched = (fs, ROk).
Proof.
  intros Hr Hd.
  assert (Hw : (should_write_archive (ArchiveCleaner_new p) imgs 5).1 = false).
  { destruct imgs as [|a [|b [|d [|? ?]]]]; try discriminate.
    cbn in Hd. injection Hd as Ha1 Ha2 Hb1 Hb2 Hd1 Hd2.
    unfold should_write_archive. cbn [firstn].
    apply should_write_loop_false. cbn.
    rewrite Ha1, Ha2, Hb1, Hb2, Hd1, Hd2. vm_compute. reflexivity. }
  split; [exact Hw | exact (clean_no_rewrite _ 5 fs sched imgs Hr Hw)].
Qed.

Lemma read_entries_spec (es : list ZipEntry) :
  ok_value (read_entries load_from_memory es)
  = if entries_readable es
    then Some (flat_map (fun d => match load_from_memory d with Some i => [i] | None => [] end)
                (image_entry_bytes es))
    else None.
Proof.
  induction es as [|e es IH]; [reflexivity|].
  destruct e as [name m d|]; [|reflexivity].
  cbn [read_entries entries_readable image_entry_bytes forallb flat_map].
  destruct (is_image name) eqn:Hi; cbn [negb orb].
  - destruct d as [bytes|]; [|reflexivity].
    rewrite bool_decide_true by (eexists; reflexivity). cbn [andb].
    fold (entries_readable es). fold (image_entry_bytes es).
    destruct (read_entries load_from_memory es) as [imgs|err];
      destruct (entries_readable es); cbn in IH |- *; try discriminate; [|reflexivity].
    injection IH as IH. subst imgs.
    destruct (load_from_memory bytes); reflexivity.
  - fold (entries_readable es).
    replace (flat_map _ (match d with Some d0 => [] | None => [] end ++ _))
      with (flat_map (fun d => match load_from_memory d with Some i => [i] | None => [] end)
              (image_entry_bytes es)) by (destruct d; reflexivity).
    exact IH.
Qed.

(** ** C9: the archive reader.
    The reader succeeds exactly when the path holds a zip container
    whose entries can all be opened and whose image entries can all be
    read; it then returns, in container order, the decoded images of the
    entries whose names end in .webp, .jpg, .jpeg or .png, leaving out
    those that do not decode. Otherwise it fails with an I/O error. *)
Theorem read_images_from_archive_contract (c : ArchiveCleaner) (fs : FS) :
  ok_value (read_images c fs) = spec_reader load_from_memory fs (archive_path c).
Proof.
  unfold read_images_from_archive, spec_reader.
  destruct (fs !! archive_path c) as [[es|bs]|]; [|reflexivity|reflexivity].
  apply read_entries_spec.
Qed.


Lemma process_image_writer (c : ArchiveCleaner) (i : nat) (img : Image) (m m1 : Mutex)
  (p : bool) (f : option WriteFault) (r : WorkerResult) (tr : list Event) :
  process_image webp_encode_lossless thumbnail to_rgba8 c i img m p f = (m1, r, tr) ->
  zw_path (mx_writer m1) = zw_path (mx_writer m)
  /\ (Forall webp_entry (zw_entries (mx_writer m)) -> Forall webp_entry (zw_entries (mx_writer m1))).
Proof.
  unfold process_image. intros H.
  destruct (mx_poisoned m); [injection H as <- _ _; auto|].
  destruct (negb _); [injection H as <- _ _; auto|].
  destruct p; [injection H as <- _ _; auto|].
  destruct (encode_webp _ _ _) as [data|e]; [|injection H as <- _ _; auto].
  destruct f as [[e|n e]|]; cbn in H; injection H as <- _ _; cbn; [auto| |];
    (split; [reflexivity|]); intros Hf; constructor; try exact Hf; do 2 eexists; reflexivity.
Qed.

Lemma run_workers_writer (c : ArchiveCleaner) (imgs : list Image) (order : list nat)
  (panics : nat -> bool) (faults : nat -> option WriteFault) (m : Mutex) :
  zw_path (mx_writer (run_workers webp_encode_lossless thumbnail to_rgba8 c imgs order panics faults m).1.1)
    = zw_path (mx_writer m)
  /\ (Forall webp_entry (zw_entries (mx_writer m)) ->
      Forall webp_entry
        (zw_entries (mx_writer (run_workers webp_encode_lossless thumbnail to_rgba8 c imgs order panics faults m).1.1))).
Proof.
  revert m. induction order as [|i order IH]; intros m; [cbn; auto|].
  cbn [run_workers]. destruct (nth_error imgs i) as [img|]; [|apply IH].
  destruct (process_image _ _ _ c i img m (panics i) (faults i)) as [[m1 r] tr] eqn:E.
  apply process_image_writer in E as [E1 E2].
  destruct (run_workers _ _ _ c imgs order panics faults m1) as [[m2 rs] trs] eqn:E'.
  destruct (IH m1) as [I1 I2]. rewrite E' in I1, I2. cbn in I1, I2 |- *.
  split; [congruence|auto].
Qed.

Lemma create_lookup (fs : FS) (tmp : Path) : (<[tmp := FRaw []]> fs) !! tmp = Some (FRaw []).
Proof. apply lookup_insert_eq. Qed.




Lemma process_image_compute_locked (c : ArchiveCleaner) (i : nat) (img : Image) (m m1 : Mutex)
  (p : bool) (f : option WriteFault) (r : WorkerResult) (tr : list Event) :
  process_image webp_encode_lossless thumbnail to_rgba8 c i img m p f = (m1, r, tr) ->
  (In Resize tr -> held_during false tr Resize = true)
  /\ (In Encode tr -> held_during false tr Encode = true).
Proof.
  unfold process_image. intros H.
  assert (Hnot : forall e tr', ~ In e tr' -> (In e tr' -> held_during false tr' e = true))
    by (intros e tr' Hn Hin; contradiction).
  destruct (mx_poisoned m); [injection H as _ _ <-; split; apply Hnot; cbn; intuition congruence|].
  destruct (negb _); [injection H as _ _ <-; split; apply Hnot; cbn; intuition congruence|].
  destruct p; [injection H as _ _ <-; split; [reflexivity|apply Hnot; cbn; intuition congruence]|].
  destruct (encode_webp _ _ _) as [data|e]; [|injection H as _ _ <-; split; reflexivity].
  destruct f as [[e|n e]|]; cbn in H; injection H as _ _ <-; split; reflexivity.
Qed.

(** ** C6 (code bug): the workers compute under the writer lock.
    In every run of the paged transform, whatever the lock order, the
    panics and the write failures, each worker that resizes or encodes
    its image does so while it holds the writer lock: the lock is taken
    on the first line of [process_image] and released when it returns,
    so the resizing and encoding of different workers never overlap. *)
Theorem paged_compute_under_lock (c : ArchiveCleaner) (imgs : list Image) (m : Mutex)
  (sched : Schedule) (i : nat) (tr : list Event) :
  In (i, tr) (process_images_threaded webp_encode_lossless thumbnail to_rgba8 c imgs m sched).2 ->
  (In Resize tr -> held_during false tr Resize = true)
  /\ (In Encode tr -> held_during false tr Encode = true).
Proof.
  unfold process_images_threaded.
  generalize (lock_order sched (length imgs)) as order. intros order. revert m.
  induction order as [|j order IH]; intros m Hin; [destruct Hin|].
  cbn [run_workers] in Hin. destruct (nth_error imgs j) as [img|]; [|exact (IH m Hin)].
  destruct (process_image _ _ _ c j img m (panics_at sched j) (write_fault sched j))
    as [[m1 r] tr1] eqn:E.
  specialize (IH m1).
  destruct (run_workers _ _ _ c imgs order _ _ m1) as [[m2 rs] trs].
  cbn in Hin, IH. destruct Hin as [Heq|Hin].
  - injection Heq as _ <-. exact (process_image_compute_locked c j img m m1 _ _ r tr1 E).
  - exact (IH Hin).
Qed.

Lemma process_image_unpoisoned (c : ArchiveCleaner) (i : nat) (img : Image) (m m1 : Mutex)
  (p : bool) (f : option WriteFault) (r : WorkerResult) (tr : list Event) :
  mx_poisoned m = false ->
  process_image webp_encode_lossless thumbnail to_rgba8 c i img m p f = (m1, r, tr) ->
  tr <> [LockFailed] /\ (mx_poisoned m1 = true -> r = WPanicked).
Proof.
  unfold process_image. intros Hm H. rewrite Hm in H.
  destruct (negb _); [injection H as <- _ <-; split; [discriminate|congruence]|].
  destruct p; [injection H as <- <- <-; split; [discriminate|reflexivity]|].
  destruct (encode_webp _ _ _); [|injection H as <- _ <-; split; try discriminate; cbn; congruence].
  destruct f as [[e|n e]|]; cbn in H; injection H as <- _ <-; split; try discriminate; cbn;
    congruence.
Qed.

Lemma run_workers_lock_failed (c : ArchiveCleaner) (imgs : list Image) (order : list nat)
  (panics : nat -> bool) (faults : nat -> option WriteFault) (m : Mutex) (i : nat) :
  In (i, [LockFailed]) (run_workers webp_encode_lossless thumbnail to_rgba8 c imgs order panics faults m).2 ->
  mx_poisoned m = true
  \/ existsb is_panicked (run_workers webp_encode_lossless thumbnail to_rgba8 c imgs order panics faults m).1.2
     = true.
Proof.
  revert m. induction order as [|j order IH]; intros m Hin; [destruct Hin|].
  cbn [run_workers] in Hin |- *. destruct (nth_error imgs j) as [img|]; [|now apply IH].
  destruct (process_image _ _ _ c j img m (panics j) (faults j)) as [[m1 r] tr] eqn:E.
  specialize (IH m1).
  destruct (run_workers _ _ _ c imgs order panics faults m1) as [[m2 rs] trs] eqn:E2.
  cbn in Hin, IH |- *.
  destruct (mx_poisoned m) eqn:Hm; [now left|right].
  destruct (process_image_unpoisoned c j img m m1 (panics j) (faults j) r tr Hm E) as [Htr Hp].
  destruct Hin as [Heq|Hin].
  - injection Heq as _ ->. congruence.
  - destruct (IH Hin) as [H1|H1].
    + rewrite (Hp H1). reflexivity.
    + rewrite H1. apply orb_true_r.
Qed.

(** ** C7: a lock failure fails the pass.
    Locking fails only on a poisoned mutex, that is, after a worker
    panicked while holding it. So when a paged worker fails to take the
    writer lock, the joins of the workers panic and the pass fails
    before the rename: the result is a panic and no path other than the
    temporary container changes, the input file included. *)
Theorem paged_lock_failure_fatal (c : ArchiveCleaner) (imgs : list Image) (fs : FS)
  (sched : Schedule) (stem : string) (dir : Path) (i : nat) :
  extract_file_info (archive_path c) = Ok (stem, dir) ->
  In (i, [LockFailed])
    (process_images_threaded webp_encode_lossless thumbnail to_rgba8 c imgs
       {| mx_poisoned := false;
          mx_writer := {| zw_path := path_join dir (stem +:+ ".temp.cbz"); zw_entries := [] |} |}
       sched).2 ->
  (paged c imgs fs sched).2 = RPanic
  /\ (paged c imgs fs sched).1 !! archive_path c = fs !! archive_path c
  /\ forall q, q <> path_join dir (stem +:+ ".temp.cbz") -> (paged c imgs fs sched).1 !! q = fs !! q.
Proof.
  intros Hx Hin.
  assert (Hall : (paged c imgs fs sched).2 = RPanic
                 /\ forall q, q <> path_join dir (stem +:+ ".temp.cbz") ->
                      (paged c imgs fs sched).1 !! q = fs !! q).
  { unfold process_non_manhwa_images. rewrite Hx. cbn [zip_create].
    unfold process_images_threaded in Hin |- *.
    match goal with |- context [run_workers _ _ _ c imgs ?o ?pn ?fl ?m0] =>
      destruct (run_workers_writer c imgs o pn fl m0) as [Hp _];
      destruct (run_workers_lock_failed c imgs o pn fl m0 i Hin) as [H0|Hpan];
      [discriminate H0|];
      destruct (run_workers _ _ _ c imgs o pn fl m0) as [[m rs] trs] end.
    cbn in Hp, Hpan |- *. rewrite Hpan. cbn. split; [reflexivity|].
    intros q Hq. unfold zip_finalize. rewrite Hp.
    rewrite !lookup_insert_ne by congruence. reflexivity. }
  destruct Hall as [H1 H2]. split; [exact H1|split; [|exact H2]].
  apply H2, (extract_file_info_temp_ne _ _ _ Hx).
Qed.

Lemma u32_small (z : Z) : 0 <= z < u32_modulus -> u32 z = z.
Proof. intros. unfold u32. apply Z.mod_small. lia. Qed.

Lemma sum_heights_nonneg (imgs : list Image) :
  Forall (fun img => 0 <= height img) imgs -> 0 <= sum_heights imgs.
Proof. induction 1; cbn; lia. Qed.

Lemma u32_sum_heights (imgs : list Image) (a : Z) :
  Forall (fun img => 0 <= height img) imgs -> 0 <= a -> a + sum_heights imgs < u32_modulus ->
  fold_left u32_add (map height imgs) a = a + sum_heights imgs.
Proof.
  intros Hf. revert a. induction Hf as [|img l Hi Hl IH]; intros a Ha Hb; cbn in *; [lia|].
  pose proof (sum_heights_nonneg l Hl).
  unfold u32_add at 2. rewrite u32_small by lia. rewrite IH by lia. lia.
Qed.

Lemma fold_max_widths (imgs : list Image) (a : Z) :
  0 <= a -> fold_left Z.max (map width imgs) a = Z.max a (spec_max_width imgs).
Proof.
  revert a. induction imgs as [|img l IH]; intros a Ha; cbn; [lia|]. rewrite IH by lia. lia.
Qed.

Lemma spec_max_width_nonneg (imgs : list Image) : 0 <= spec_max_width imgs.
Proof. induction imgs; cbn; lia. Qed.

Lemma spec_max_width_bound (imgs : list Image) :
  Forall (fun img => width img < u32_modulus) imgs -> spec_max_width imgs < u32_modulus.
Proof. induction 1; cbn; unfold u32_modulus in *; lia. Qed.

Section Strip.

Hypothesis resize_exact_dims : forall img w h,
  width (resize_exact img w h) = w /\ height (resize_exact img w h) = h.
Hypothesis to_rgba8_dims : forall img,
  width (to_rgba8 img) = width img /\ height (to_rgba8 img) = height img.

Lemma paste_all_spec (rest : list Image) (cv : Image) (off : Z) :
  Forall (fun img => 0 <= height img) rest ->
  0 <= width cv < u32_modulus -> height cv < u32_modulus ->
  0 <= off -> off + sum_heights rest <= height cv ->
  exists cv', paste_all resize_exact to_rgba8 cv (width cv) off rest = Some cv'
    /\ width cv' = width cv /\ height cv' = height cv
    /\ (forall x y, y < off -> px cv' x y = px cv x y)
    /\ (forall k img, nth_error rest k = Some img -> forall x y,
          0 <= x < width cv -> 0 <= y < height img ->
          px cv' x (off + sum_heights (firstn k rest) + y)
          = px (to_rgba8 (resize_exact img (width cv) (height img))) x y).
Proof.
  intros Hf. revert cv off. induction Hf as [|img l Hi Hl IH]; intros cv off Hw Hh Ho Hs.
  { exists cv. cbn. repeat split; auto. intros [|k] ? Hk; discriminate. }
  cbn in Hs. pose proof (sum_heights_nonneg l Hl) as Hl0.
  set (R := to_rgba8 (resize_exact img (width cv) (height img))).
  assert (HRw : width R = width cv)
    by (unfold R; rewrite (proj1 (to_rgba8_dims _)); apply resize_exact_dims).
  assert (HRh : height R = height img)
    by (unfold R; rewrite (proj2 (to_rgba8_dims _)); apply resize_exact_dims).
  cbn [paste_all]. fold R. unfold copy_from.
  rewrite HRw, HRh. unfold u32_add. rewrite !u32_small by lia.
  replace (width cv <? width cv + 0) with false by (symmetry; apply Z.ltb_ge; lia).
  replace (height cv <? height img + off) with false by (symmetry; apply Z.ltb_ge; lia).
  cbn [orb].
  set (cv1 := {| width := width cv; height := height cv;
                 px := fun i k => if (0 <=? i) && (i <? 0 + width cv) && (off <=? k)
                                     && (k <? off + height img)
                                  then px R (i - 0) (k - off) else px cv i k |}).
  destruct (IH cv1 (off + height img)) as (cv' & Hp & Hw' & Hh' & Hpre & Hplace);
    cbn; try lia.
  exists cv'. split; [exact Hp|].
  split; [exact Hw'|]. split; [exact Hh'|]. split.
  - intros x y Hy. rewrite Hpre by lia. cbn.
    replace (off <=? y) with false by (symmetry; apply Z.leb_gt; lia).
    now rewrite !andb_false_r.
  - intros [|k] img' Hk x y Hx Hy.
    + injection Hk as <-. cbn [firstn sum_heights].
      rewrite Hpre by lia. cbn.
      assert (Hc : (0 <=? x) && (x <? 0 + width cv) && (off <=? off + 0 + y)
                   && (off + 0 + y <? off + height img) = true)
        by (repeat (apply andb_true_iff; split); lia).
      rewrite Hc. unfold R. f_equal; lia.
    + cbn in Hk. cbn [firstn sum_heights].
      replace (off + (height img + sum_heights (firstn k l)) + y)
        with (off + height img + sum_heights (firstn k l) + y) by lia.
      exact (Hplace k img' Hk x y Hx Hy).
Qed.

Lemma combine_images_spec (imgs : list Image) :
  Forall (fun img => 0 <= width img < u32_modulus /\ 0 <= height img) imgs ->
  sum_heights imgs < u32_modulus ->
  exists canvas, combine_images resize_exact to_rgba8 imgs = Some canvas
    /\ width canvas = spec_max_width imgs /\ height canvas = sum_heights imgs
    /\ (forall k img, nth_error imgs k = Some img -> forall x y,
          0 <= x < width canvas -> 0 <= y < height img ->
          px canvas x (sum_heights (firstn k imgs) + y)
          = px (to_rgba8 (resize_exact img (width canvas) (height img))) x y).
Proof.
  intros Hf Hs.
  assert (Hh : Forall (fun img => 0 <= height img) imgs)
    by (eapply Forall_impl; [exact Hf|]; cbn; tauto).
  assert (Hw : Forall (fun img => width img < u32_modulus) imgs)
    by (eapply Forall_impl; [exact Hf|]; cbn; tauto).
  pose proof (sum_heights_nonneg imgs Hh). pose proof (spec_max_width_nonneg imgs).
  pose proof (spec_max_width_bound imgs Hw).
  unfold combine_images, u32_sum, max_or_zero.
  rewrite u32_sum_heights by (auto; lia). rewrite fold_max_widths by lia.
  replace (Z.max 0 (spec_max_width imgs)) with (spec_max_width imgs) by lia.
  destruct (paste_all_spec imgs (new_rgba8 (spec_max_width imgs) (0 + sum_heights imgs)) 0 Hh)
    as (cv & Hp & Hw' & Hh' & _ & Hpl); cbn; try lia.
  exists cv. cbn in Hp, Hw', Hh', Hpl. split; [exact Hp|]. split; [exact Hw'|].
  split; [exact Hh'|]. intros k img Hk x y Hx Hy. rewrite Hw'.
  apply (Hpl k img Hk x y); lia.
Qed.

Lemma num_slices_exact (total th : Z) :
  0 < th -> 0 <= total -> total + th < u32_modulus ->
  num_slices_of total th = (total + th - 1) / th.
Proof.
  intros. unfold num_slices_of, u32_div, u32_sub, u32_add.
  rewrite (u32_small (total + th)) by lia. rewrite u32_small by lia. reflexivity.
Qed.

Lemma ceil_bounds (total th : Z) :
  0 < th -> 0 <= total ->
  ((total + th - 1) / th - 1) * th < total <= (total + th - 1) / th * th.
Proof.
  intros Ht H0. pose proof (Z.div_mod (total + th - 1) th ltac:(lia)) as E.
  pose proof (Z.mod_pos_bound (total + th - 1) th Ht).
  set (q := (total + th - 1) / th) in *. set (r := (total + th - 1) mod th) in *. nia.
Qed.

Lemma manhwa_slice_spec (canvas : Image) (th : Z) (i : nat) :
  0 < th -> 0 <= width canvas -> 0 <= height canvas ->
  height canvas + th < u32_modulus ->
  Z.of_nat i < (height canvas + th - 1) / th ->
  width (manhwa_slice canvas th i) = width canvas
  /\ height (manhwa_slice canvas th i) = Z.min th (height canvas - Z.of_nat i * th)
  /\ forall x y, px (manhwa_slice canvas th i) x y = px canvas x (Z.of_nat i * th + y).
Proof.
  intros Ht Hw Hh Hb Hi.
  pose proof (ceil_bounds (height canvas) th Ht Hh) as [C1 C2].
  set (nb := (height canvas + th - 1) / th) in *.
  set (si := Z.of_nat i) in *.
  assert (Hsi : 0 <= si) by lia.
  assert (E1 : (si + 1) * th <= nb * th) by nia.
  assert (E2 : si * th < height canvas) by nia.
  assert (Hadd : u32_add si 1 = si + 1) by (apply u32_small; nia).
  assert (Hm1 : u32_mul (si + 1) th = (si + 1) * th) by (apply u32_small; nia).
  assert (Hm0 : u32_mul si th = si * th) by (apply u32_small; nia).
  unfold manhwa_slice, crop_image, crop_imm. fold si.
  rewrite Hadd, Hm1, Hm0.
  unfold u32_sub. rewrite (u32_small (Z.min ((si + 1) * th) (height canvas) - si * th)) by nia.
  cbn [width height px].
  replace (Z.min 0 (width canvas)) with 0 by lia.
  replace (Z.min (si * th) (height canvas)) with (si * th) by lia.
  split; [lia|split; [nia|reflexivity]].
Qed.

Lemma write_slices_entries (faults : nat -> option WriteFault) (combined : Image) (sh : Z)
  (i k : nat) (zw zw' : ZipWriter) :
  write_slices webp_encode_lossless to_rgba8 faults combined sh i k zw = Ok zw' ->
  rev (zw_entries zw') = rev (zw_entries zw)
    ++ map (fun j => Entry (slice_name j) Stored
                       (ok_value (encode_webp webp_encode_lossless to_rgba8 (manhwa_slice combined sh j))))
           (seq i k).
Proof.
  revert i zw. induction k as [|k IH]; intros i zw H; cbn in H.
  - injection H as <-. cbn. now rewrite app_nil_r.
  - destruct (encode_webp _ _ _) as [data|e] eqn:He; [|discriminate].
    destruct (faults i) as [[e|n e]|]; cbn in H; [discriminate|discriminate|].
    rewrite (IH _ _ H). cbn. rewrite He. cbn. now rewrite <- app_assoc.
Qed.

Lemma slice_name_small (j : nat) :
  Z.of_nat j + 1 < u32_modulus -> slice_name j = string_of_nat (S j) +:+ ".webp".
Proof.
  intros H. unfold slice_name, u32_add. rewrite u32_small by lia.
  f_equal. f_equal. lia.
Qed.

Lemma process_manhwa_entries (c : ArchiveCleaner) (imgs : list Image) (fs fs' : FS)
  (sched : Schedule) (canvas : Image) (stem : string) (dir : Path) :
  extract_file_info (archive_path c) = Ok (stem, dir) ->
  combine_images resize_exact to_rgba8 imgs = Some canvas ->
  manhwa c imgs fs sched = (fs', ROk) ->
  fs' !! path_join dir (stem +:+ ".cbz")
  = Some (FZip (map (fun j => Entry (slice_name j) Stored
                       (ok_value (encode_webp webp_encode_lossless to_rgba8
                                    (manhwa_slice canvas (info_height (min_image_size c)) j))))
                 (seq 0 (Z.to_nat (num_slices_of (height canvas) (info_height (min_image_size c))))))).
Proof.
  intros Hx Hc. unfold process_manhwa_images. rewrite Hx. cbn [zip_create]. rewrite Hc.
  destruct (write_slices _ _ _ _ _ _ _ _) as [zw|[e zw]] eqn:Hw; [|discriminate].
  unfold fs_rename. rewrite create_lookup. intros H. injection H as <-.
  apply write_slices_entries in Hw. cbn in Hw.
  unfold zip_finalize, zw_moved. cbn [zw_path zw_entries].
  rewrite lookup_insert_eq. now rewrite Hw.
Qed.

(** ** C5: the strip transform.
    For strip pages with widths and heights in the u32 range and a total
    height that leaves room for one more band, [combine_images] builds a
    canvas of the largest width and the summed height, in which page [k]
    is resized to the canvas width with its own height and starts at the
    sum of the heights of the pages before it. The canvas is cut into
    [nb] contiguous bands, where [nb] is the ceiling of the total height
    over the threshold height; band [i] starts at row [i * th], has the
    canvas width and height [min th (total - i * th)], so only the last is
    shorter. A successful pass leaves at [<stem>.cbz] exactly the entries
    [1.webp] .. [nb.webp], stored, holding the encoded bands in order. *)
Theorem strip_transform (c : ArchiveCleaner) (imgs : list Image) :
  Forall (fun img => 0 <= width img < u32_modulus /\ 0 <= height img) imgs ->
  0 < info_height (min_image_size c) ->
  sum_heights imgs + info_height (min_image_size c) < u32_modulus ->
  exists canvas nb,
    combine_images resize_exact to_rgba8 imgs = Some canvas
    /\ width canvas = spec_max_width imgs /\ height canvas = sum_heights imgs
    /\ (forall k img, nth_error imgs k = Some img -> forall x y,
          0 <= x < width canvas -> 0 <= y < height img ->
          px canvas x (sum_heights (firstn k imgs) + y)
          = px (to_rgba8 (resize_exact img (width canvas) (height img))) x y)
    /\ Z.to_nat (num_slices_of (height canvas) (info_height (min_image_size c))) = nb
    /\ (Z.of_nat nb - 1) * info_height (min_image_size c) < sum_heights imgs
    /\ sum_heights imgs <= Z.of_nat nb * info_height (min_image_size c)
    /\ (forall i, (i < nb)%nat ->
          let s := manhwa_slice canvas (info_height (min_image_size c)) i in
          width s = width canvas
          /\ height s = Z.min (info_height (min_image_size c))
                              (sum_heights imgs - Z.of_nat i * info_height (min_image_size c))
          /\ forall x y, px s x y = px canvas x (Z.of_nat i * info_height (min_image_size c) + y))
    /\ (forall fs fs' sched stem dir,
          extract_file_info (archive_path c) = Ok (stem, dir) ->
          manhwa c imgs fs sched = (fs', ROk) ->
          fs' !! path_join dir (stem +:+ ".cbz")
          = Some (FZip (map (fun i => Entry (string_of_nat (S i) +:+ ".webp") Stored
                                (ok_value (encode_webp webp_encode_lossless to_rgba8
                                   (manhwa_slice canvas (info_height (min_image_size c)) i))))
                            (seq 0 nb)))).
Proof.
  intros Hf Ht Hb.
  set (th := info_height (min_image_size c)) in *.
  assert (Hh : Forall (fun img => 0 <= height img) imgs)
    by (eapply Forall_impl; [exact Hf|]; cbn; tauto).
  pose proof (sum_heights_nonneg imgs Hh) as H0.
  destruct (combine_images_spec imgs Hf ltac:(lia)) as (canvas & Hc & Hw & Hht & Hpl).
  pose proof (spec_max_width_nonneg imgs).
  set (T := sum_heights imgs) in *.
  pose proof (ceil_bounds T th Ht H0) as [B1 B2].
  pose proof (Z.div_pos (T + th - 1) th ltac:(lia) Ht) as Hq.
  exists canvas, (Z.to_nat ((T + th - 1) / th)).
  rewrite Hht, (num_slices_exact T th Ht H0 Hb).
  rewrite Z2Nat.id by lia.
  split; [exact Hc|]. split; [exact Hw|]. split; [reflexivity|]. split; [exact Hpl|].
  split; [reflexivity|]. split; [lia|]. split; [lia|]. split.
  - intros i Hi s. subst s.
    assert (Hi' : Z.of_nat i < (height canvas + th - 1) / th) by (rewrite Hht; lia).
    pose proof (manhwa_slice_spec canvas th i Ht ltac:(lia) ltac:(lia) ltac:(lia) Hi') as Hs.
    rewrite Hht in Hs. exact Hs.
  - intros fs fs' sched stem dir Hx Hm.
    rewrite (process_manhwa_entries c imgs fs fs' sched canvas stem dir Hx Hc Hm). fold th.
    rewrite Hht, (num_slices_exact T th Ht H0 Hb).
    f_equal. f_equal. apply map_ext_in. intros j Hj. apply in_seq in Hj.
    rewrite slice_name_small; [reflexivity|].
    assert (Z.of_nat j < (T + th - 1) / th) by lia. nia.
Qed.

End Strip.

End Facts.

(* ------------------------------------------------------------------ *)
(** ** File names *)

Lemma string_eq_of_list (s t : string) :
  list_ascii_of_string s = list_ascii_of_string t -> s = t.
Proof.
  intros H. rewrite <- (string_of_list_ascii_of_string s), <- (string_of_list_ascii_of_string t).
  now rewrite H.
Qed.

Lemma rsplit_rev_app (c : ascii) (l r after : list ascii) :
  ~ In c l -> rsplit_rev c (l ++ r) after = rsplit_rev c r (rev l ++ after).
Proof.
  revert after. induction l as [|x l IH]; intros after Hn; [reflexivity|].
  cbn [app rsplit_rev]. destruct (ascii_dec x c) as [->|Hne]; [exfalso; apply Hn; now left|].
  rewrite IH by (intros H; apply Hn; now right). cbn. now rewrite <- app_assoc.
Qed.

(** The last dot of [stem.ext], when [ext] has none, is the one before
    [ext]. *)
Lemma rsplit_once_last (stem ext : string) (c : ascii) :
  ~ In c (list_ascii_of_string ext) -> rsplit_once (stem +:+ String c ext) c = Some (stem, ext).
Proof.
  intros Hn. unfold rsplit_once. rewrite list_ascii_of_string_app. cbn [list_ascii_of_string].
  rewrite rev_app_distr. cbn [rev]. rewrite <- app_assoc. cbn [app].
  rewrite rsplit_rev_app by (rewrite <- in_rev; exact Hn).
  cbn. destruct (ascii_dec c c) as [_|n]; [|congruence].
  rewrite !rev_involutive, app_nil_r, !string_of_list_ascii_of_string. reflexivity.
Qed.

Lemma rsplit_once_no_sep (s : string) (c : ascii) :
  ~ In c (list_ascii_of_string s) -> rsplit_once s c = None.
Proof.
  intros Hn. unfold rsplit_once.
  rewrite <- (app_nil_r (rev (list_ascii_of_string s))).
  rewrite rsplit_rev_app by (rewrite <- in_rev; exact Hn). reflexivity.
Qed.

Lemma path_file_name_last (dir : Path) (f : string) :
  f <> ".." -> path_file_name (path_join dir f) = Some f.
Proof.
  intros Hf. unfold path_file_name, path_join. rewrite rev_unit.
  destruct (String.eqb_spec f ".."); [contradiction|reflexivity].
Qed.

Lemma path_parent_last (dir : Path) (f : string) : path_parent (path_join dir f) = Some dir.
Proof.
  unfold path_parent, path_join. rewrite removelast_last. now destruct dir.
Qed.

Lemma path_join_inj (dir : Path) (a b : string) : path_join dir a = path_join dir b -> a = b.
Proof. unfold path_join. intros H. now apply app_inj_tail in H as [_ H]. Qed.

(** Two names [stem] followed by different suffixes differ. *)
Lemma suffix_ne (stem s t : string) : s <> t -> stem +:+ s <> stem +:+ t.
Proof. intros Hst H. apply (inj (String.app stem)) in H. contradiction. Qed.

(** A [FileHandler] over [p] with an extension: [p] is [dir/name.ext]. *)
Lemma handler_path (p : Path) (fh : FileHandler) (e : string) :
  FileHandler_new p = Some fh -> path_extension p = Some e ->
  file_path fh = p /\ p = path_join (dir_path fh) (file_name fh +:+ String "." e).
Proof.
  unfold FileHandler_new, extract_file_info, path_extension.
  destruct (path_file_name p) as [f|] eqn:Hf; [|discriminate].
  destruct (String.eqb f "..") eqn:Hdd; [intros _ H; discriminate H|].
  destruct (rsplit_once f "."%char) as [[b a]|] eqn:Hr; [|intros _ H; discriminate H].
  destruct (path_parent p) as [dir|] eqn:Hp; [|discriminate].
  intros Hfh. injection Hfh as <-. cbn.
  destruct (String.eqb b ""); [discriminate|]. intros He. injection He as ->.
  split; [reflexivity|].
  apply rsplit_once_some in Hr as [Hl _].
  assert (Ef : f = b +:+ String "." e)
    by (apply string_eq_of_list; rewrite list_ascii_of_string_app; exact Hl).
  subst f. unfold path_file_name in Hf. unfold path_parent in Hp.
  destruct (rev p) as [|x r] eqn:Hrev; [discriminate|].
  destruct (String.eqb x ".."); [discriminate|]. injection Hf as ->.
  assert (Ep : p = rev r ++ [b +:+ String "." e])
    by (rewrite <- (rev_involutive p), Hrev; reflexivity).
  destruct p as [|y p']; [discriminate|]. injection Hp as <-.
  transitivity (removelast (y :: p') ++ [b +:+ String "." e]);
    [rewrite Ep; now rewrite removelast_last | reflexivity].
Qed.

(** ** X1: how [extract_file_info] splits a path.
    For [dir/stem.ext] with no dot in [ext] the result is [(stem, dir)]:
    the stem keeps all dots but the last ([a.tar.gz] gives [a.tar]). A
    name without a dot is its own stem, and the empty path is refused
    with [InvalidInput]. *)
Theorem extract_file_info_split :
  (forall (dir : Path) (stem ext : string),
      ~ In "."%char (list_ascii_of_string ext) -> stem +:+ String "." ext <> ".." ->
      extract_file_info (path_join dir (stem +:+ String "." ext)) = Ok (stem, dir))
  /\ (forall (dir : Path) (f : string),
      ~ In "."%char (list_ascii_of_string f) ->
      extract_file_info (path_join dir f) = Ok (f, dir))
  /\ extract_file_info [] = Err (InvalidInput "Invalid file path: no file name").
Proof.
  split; [|split; [|reflexivity]].
  - intros dir stem ext Hn Hdd. unfold extract_file_info.
    rewrite path_file_name_last by exact Hdd. rewrite rsplit_once_last by exact Hn.
    now rewrite path_parent_last.
  - intros dir f Hn. unfold extract_file_info.
    rewrite path_file_name_last by (intros ->; apply Hn; cbn; tauto).
    rewrite rsplit_once_no_sep by exact Hn. now rewrite path_parent_last.
Qed.

(* ------------------------------------------------------------------ *)
(** ** Decimal names *)

Lemma dec_val_digits (f n : nat) (acc : string) :
  (n < f)%nat -> dec_val (digits_aux f n acc) 0 = dec_val acc n.
Proof.
  revert n acc. induction f as [|f IH]; intros n acc Hn; [lia|].
  cbn [digits_aux].
  assert (Hd : forall k : nat, (nat_of_ascii (ascii_of_nat (48 + k mod 10)) - 48 = k mod 10)%nat).
  { intros k. rewrite nat_ascii_embedding; [lia|].
    pose proof (Nat.mod_upper_bound k 10 ltac:(lia)). lia. }
  destruct (Nat.ltb_spec n 10).
  - cbn [dec_val]. rewrite Hd, Nat.mod_small by lia. reflexivity.
  - rewrite IH.
    + cbn [dec_val]. rewrite Hd. f_equal. pose proof (Nat.div_mod_eq n 10). lia.
    + pose proof (Nat.div_lt n 10). lia.
Qed.

Lemma string_of_nat_inj (n m : nat) : string_of_nat n = string_of_nat m -> n = m.
Proof.
  intros H. unfold string_of_nat in H.
  pose proof (dec_val_digits (S n) n "" ltac:(lia)) as En.
  pose proof (dec_val_digits (S m) m "" ltac:(lia)) as Em.
  rewrite H, Em in En. exact (eq_sym En).
Qed.

Lemma string_app_inj_r (a b s : string) : a +:+ s = b +:+ s -> a = b.
Proof.
  intros H. apply string_eq_of_list. apply (f_equal list_ascii_of_string) in H.
  rewrite !list_ascii_of_string_app in H. exact (app_inv_tail _ _ _ H).
Qed.

Lemma page_name_inj (i j : nat) :
  string_of_nat (S i) +:+ ".webp" = string_of_nat (S j) +:+ ".webp" -> i = j.
Proof. intros H. apply string_app_inj_r, string_of_nat_inj in H. lia. Qed.


Section CleanerExtras.

Variable load_from_memory : list byte -> option Image.
Variable webp_encode_lossless : Image -> result (list byte) string.
Variable resize_exact : Image -> Z -> Z -> Image.
Variable thumbnail : Image -> Z -> Z -> Image.
Variable to_rgba8 : Image -> Image.

Local Abbreviation cleanX :=
  (clean_archive_file load_from_memory webp_encode_lossless resize_exact thumbnail to_rgba8).
Local Abbreviation manhwaX := (process_manhwa_images webp_encode_lossless resize_exact to_rgba8).
Local Abbreviation pagedX := (process_non_manhwa_images webp_encode_lossless thumbnail to_rgba8).
Local Abbreviation workerX := (worker_entries webp_encode_lossless thumbnail to_rgba8).





(* The paged workers when none of them panics. *)

Lemma paged_entry_rev (c : ArchiveCleaner) (f : option WriteFault) (i : nat) (img : Image) :
  rev (paged_entry webp_encode_lossless thumbnail to_rgba8 c f i img)
  = paged_entry webp_encode_lossless thumbnail to_rgba8 c f i img.
Proof.
  unfold paged_entry. destruct (image_meets_criteria _ _ _); [|reflexivity].
  destruct (encode_webp _ _ _); [|reflexivity]. destruct (fault_data _ _); reflexivity.
Qed.

Lemma run_workers_no_panic (c : ArchiveCleaner) (imgs : list Image) (order : list nat)
  (panics : nat -> bool) (faults : nat -> option WriteFault) (m : Mutex) :
  mx_poisoned m = false ->
  existsb is_panicked (run_workers webp_encode_lossless thumbnail to_rgba8 c imgs order panics faults m).1.2
    = false ->
  zw_entries (mx_writer (run_workers webp_encode_lossless thumbnail to_rgba8 c imgs order panics faults m).1.1)
  = rev (flat_map (workerX c faults imgs) order) ++ zw_entries (mx_writer m).
Proof.
  revert m. induction order as [|i order IH]; intros m Hm Hp; [reflexivity|].
  cbn [run_workers flat_map] in Hp |- *. unfold worker_entries at 1.
  destruct (nth_error imgs i) as [img|] eqn:Hi; [|exact (IH m Hm Hp)].
  rewrite rev_app_distr, paged_entry_rev, <- app_assoc.
  destruct (process_image _ _ _ c i img m (panics i) (faults i)) as [[m1 r] tr] eqn:E.
  destruct (run_workers _ _ _ c imgs order panics faults m1) as [[m2 rs] trs] eqn:E'.
  cbn in Hp |- *. unfold process_image in E. rewrite Hm in E.
  unfold paged_entry.
  specialize (IH m1). rewrite E' in IH. cbn [fst snd] in IH.
  destruct (image_meets_criteria _ _ _); cbn [negb] in E.
  - destruct (panics i); [injection E as _ <- _; discriminate|].
    destruct (encode_webp _ _ _) as [d|e].
    + destruct (faults i) as [[e|n e]|]; cbn [zip_append fault_data] in E |- *;
        injection E as Em <- _; subst m1; cbn [is_panicked snd existsb orb] in Hp;
        rewrite (IH eq_refl Hp); cbn [mx_writer zw_entries zip_start_and_write app];
        rewrite ?Nat.add_1_r; reflexivity.
    + injection E as <- <- _. cbn [is_panicked snd existsb orb] in Hp. exact (IH Hm Hp).
  - injection E as <- <- _. cbn [is_panicked snd existsb orb] in Hp. exact (IH Hm Hp).
Qed.

Lemma in_worker_entries (c : ArchiveCleaner) (faults : nat -> option WriteFault)
  (imgs : list Image) (j : nat) (e : ZipEntry) :
  In e (workerX c faults imgs j) <->
  exists img d d', nth_error imgs j = Some img
    /\ image_meets_criteria c (width img) (height img) = true
    /\ encode_webp webp_encode_lossless to_rgba8
         (thumbnail img (info_width (min_image_size c)) (info_height (min_image_size c))) = Ok d
    /\ fault_data (faults j) d = Some d'
    /\ e = Entry (string_of_nat (S j) +:+ ".webp") Stored (Some d').
Proof.
  unfold worker_entries, paged_entry. split.
  - destruct (nth_error imgs j) as [img|]; [|intros []].
    destruct (image_meets_criteria _ _ _) eqn:Hc; [|intros []].
    destruct (encode_webp _ _ _) as [d|] eqn:He; [|intros []].
    destruct (fault_data _ d) as [d'|] eqn:Hf; [|intros []].
    intros [<-|[]]. eauto 10.
  - intros (img & d & d' & -> & -> & -> & -> & ->). now left.
Qed.



Lemma in_entry_names (n : string) (es : list ZipEntry) :
  In n (entry_names es) -> exists cm d, In (Entry n cm d) es.
Proof.
  induction es as [|[n' cm d|] es IH]; cbn; [intros []| |].
  - intros [<-|H]; [eauto|]. destruct (IH H) as (cm' & d' & Hin). eauto.
  - intros H. destruct (IH H) as (cm' & d' & Hin). eauto.
Qed.

(** ** C8 (amended): a page under the criterion is left out.
    A paged worker whose image does not meet the size criterion at
    transform time, and that finds the lock unpoisoned, checks the
    criterion under the lock and returns [Err("Processing error")]: the
    error variant a failed encoding or append also returns. It leaves the
    writer as it found it. A paged pass that returns [Ok] then holds no
    entry [<i+1>.webp] for that image in [<stem>.cbz], whatever the lock
    order: the page is missing from the output, and when the input is
    [<stem>.cbz] itself, which the rename replaces, the page is lost. *)
Theorem paged_skip_no_entry (c : ArchiveCleaner) (imgs : list Image) (fs fs' : FS)
  (sched : Schedule) (stem : string) (dir : Path) (i : nat) (img : Image) :
  extract_file_info (archive_path c) = Ok (stem, dir) ->
  nth_error imgs i = Some img ->
  image_meets_criteria c (width img) (height img) = false ->
  (forall m p f, mx_poisoned m = false ->
     process_image webp_encode_lossless thumbnail to_rgba8 c i img m p f
     = (m, WErr (Other "Processing error"), [Lock; CheckCriteria; Unlock]))
  /\ (pagedX c imgs fs sched = (fs', ROk) ->
      exists es, fs' !! path_join dir (stem +:+ ".cbz") = Some (FZip es)
        /\ ~ In (string_of_nat (S i) +:+ ".webp") (entry_names es)).
Proof.
  intros Hx Hi Hc. split.
  { intros m p f Hm. unfold process_image. rewrite Hm, Hc. reflexivity. }
  unfold process_non_manhwa_images, process_images_threaded. rewrite Hx.
  cbn [zip_create].
  pose proof (run_workers_no_panic c imgs (lock_order sched (length imgs)) (panics_at sched)
                (write_fault sched)
                {| mx_poisoned := false;
                   mx_writer := {| zw_path := path_join dir (stem +:+ ".temp.cbz");
                                   zw_entries := [] |} |} eq_refl) as Hnp.
  destruct (run_workers _ _ _ c imgs _ _ _ _) as [[m rs] trs]. cbn in Hnp.
  destruct (existsb is_panicked rs); [discriminate|].
  specialize (Hnp eq_refl). rewrite app_nil_r in Hnp.
  unfold fs_rename. rewrite create_lookup. intros H. injection H as <-.
  exists (flat_map (workerX c (write_fault sched) imgs) (lock_order sched (length imgs))).
  unfold zip_finalize. cbn. rewrite Hnp, rev_involutive.
  split; [apply lookup_insert_eq|].
  intros Hin. apply in_entry_names in Hin as (cm & d & Hin).
  apply in_flat_map in Hin as (j & _ & Hin).
  apply in_worker_entries in Hin as (img' & d0 & d' & Hj & Hc' & _ & _ & Heq).
  injection Heq as Hn _ _. apply page_name_inj in Hn. subst j. congruence.
Qed.



End CleanerExtras.

(* ------------------------------------------------------------------ *)
(** ** The file handler *)

(** [dir/stem.a] and [dir/stem.b] differ when [a] and [b] do. *)
Lemma ext_path_ne (dir : Path) (stem a b : string) :
  a <> b -> path_join dir (stem +:+ String "." a) <> path_join dir (stem +:+ String "." b).
Proof.
  intros Hab H. apply path_join_inj in H. apply (suffix_ne stem (String "." a) (String "." b)).
  - now intros [= ->].
  - exact H.
Qed.

(** [dir/stem_<t>.webp] is never [dir/stem.<e>]. *)
Lemma stamp_path_ne (dir : Path) (stem t e : string) :
  path_join dir (stem +:+ "_" +:+ t +:+ ".webp") <> path_join dir (stem +:+ String "." e).
Proof.
  intros H. apply path_join_inj in H. apply (suffix_ne stem ("_" +:+ t +:+ ".webp") (String "." e)).
  - cbn. discriminate.
  - exact H.
Qed.

Section HandlerExtras.

Variable load_from_memory : list byte -> option Image.
Variable webp_encode_lossless : Image -> result (list byte) string.
Variable resize_exact : Image -> Z -> Z -> Image.
Variable thumbnail : Image -> Z -> Z -> Image.
Variable to_rgba8 : Image -> Image.
Variable tar_entries : FileData -> result (list TarEntry) string.
Variable start_file_error : list string -> string -> option string.
Variable rar_to_zip : FileHandler -> Path -> FS -> FS * HandlerResult.
Variable image_decode : Path -> FileData -> result Image string.
Variable save_webp : Image -> list byte * option string.
Variable save_gif : Image -> list byte * option string.
Variable run_ffmpeg : FS -> Path -> Path -> FS * result (bool * string) string.
Variable now_secs : nat.

Local Abbreviation handleX :=
  (FileHandler_clean load_from_memory webp_encode_lossless resize_exact thumbnail to_rgba8
     tar_entries start_file_error rar_to_zip image_decode save_webp save_gif run_ffmpeg now_secs).
Local Abbreviation cleanY :=
  (clean_archive_file load_from_memory webp_encode_lossless resize_exact thumbnail to_rgba8).
Local Abbreviation zipX :=
  (handle_zip_file load_from_memory webp_encode_lossless resize_exact thumbnail to_rgba8).
Local Abbreviation tarX :=
  (handle_tar_file load_from_memory webp_encode_lossless resize_exact thumbnail to_rgba8
     tar_entries start_file_error).
Local Abbreviation rarX :=
  (handle_rar_file load_from_memory webp_encode_lossless resize_exact thumbnail to_rgba8
     rar_to_zip).
Local Abbreviation imageX := (handle_image_file thumbnail image_decode save_webp now_secs).
Local Abbreviation gifX := (handle_gif_file thumbnail image_decode save_gif).
Local Abbreviation videoX := (handle_video_file run_ffmpeg).

(* The arms of [FileHandler::clean]. *)

Lemma clean_zip (fh : FileHandler) (fs : FS) (sched : Schedule) :
  path_extension (file_path fh) = Some "zip" -> handleX fh fs sched = zipX fh fs sched.
Proof. intros H. unfold FileHandler_clean. now rewrite H. Qed.

Lemma clean_rar (fh : FileHandler) (fs : FS) (sched : Schedule) :
  path_extension (file_path fh) = Some "rar" -> handleX fh fs sched = rarX fh fs sched.
Proof. intros H. unfold FileHandler_clean. now rewrite H. Qed.

Lemma clean_tar (fh : FileHandler) (fs : FS) (sched : Schedule) (e : string) :
  In e ["tar"; "gz"] -> path_extension (file_path fh) = Some e ->
  handleX fh fs sched = tarX fh fs sched.
Proof.
  intros He H. unfold FileHandler_clean. rewrite H.
  destruct He as [<-|[<-|[]]]; reflexivity.
Qed.

Lemma clean_image (fh : FileHandler) (fs : FS) (sched : Schedule) (e : string) :
  In e ["jpg"; "jpeg"; "png"; "bmp"] -> path_extension (file_path fh) = Some e ->
  handleX fh fs sched = imageX fh fs.
Proof.
  intros He H. unfold FileHandler_clean. rewrite H.
  destruct He as [<-|[<-|[<-|[<-|[]]]]]; reflexivity.
Qed.

Lemma clean_gif (fh : FileHandler) (fs : FS) (sched : Schedule) :
  path_extension (file_path fh) = Some "gif" -> handleX fh fs sched = gifX fh fs.
Proof. intros H. unfold FileHandler_clean. now rewrite H. Qed.

Lemma clean_subtitle (fh : FileHandler) (fs : FS) (sched : Schedule) (e : string) :
  In e ["srt"; "ass"] -> path_extension (file_path fh) = Some e -> handleX fh fs sched = (fs, HOk).
Proof.
  intros He H. unfold FileHandler_clean. rewrite H. destruct He as [<-|[<-|[]]]; reflexivity.
Qed.

Lemma clean_video (fh : FileHandler) (fs : FS) (sched : Schedule) (e : string) :
  In e ["mp4"; "mkv"] -> path_extension (file_path fh) = Some e ->
  handleX fh fs sched = videoX fh fs.
Proof.
  intros He H. unfold FileHandler_clean. rewrite H. destruct He as [<-|[<-|[]]]; reflexivity.
Qed.

(** The cleaner run by [handle_zip_file] on a file that is not a
    container: nothing changes and nothing is reported. *)
Lemma zip_on_raw (fh : FileHandler) (fs : FS) (sched : Schedule) (bs : list byte) :
  fs !! file_path fh = Some (FRaw bs) -> zipX fh fs sched = (fs, HOk).
Proof.
  intros H. unfold handle_zip_file, FileHandler_clean_archive_file, clean_archive_file,
    read_images_from_archive. cbn [archive_path ArchiveCleaner_new]. now rewrite H.
Qed.

(** ** X4: [.zip] files: the cleaner's errors are not reported.
    For a [.zip] file, [FileHandler::clean] runs one pass of
    [clean_archive_file] with 5 images to check and returns [Ok] whatever
    the pass returns; only a panic of the pass gets through. *)
Theorem FileHandler_clean_zip (p : Path) (fh : FileHandler) (fs : FS) (sched : Schedule) :
  FileHandler_new p = Some fh -> path_extension p = Some "zip" ->
  handleX fh fs sched =
    ((cleanY (ArchiveCleaner_new p) 5 fs sched).1,
     match (cleanY (ArchiveCleaner_new p) 5 fs sched).2 with RPanic => HPanic | _ => HOk end).
Proof.
  intros Hn He. destruct (handler_path p fh "zip" Hn He) as [Hp _].
  rewrite clean_zip by congruence.
  unfold handle_zip_file, FileHandler_clean_archive_file. rewrite Hp.
  destruct (cleanY _ 5 fs sched) as [fs' [|e|]]; reflexivity.
Qed.

(* [tar_to_zip] on entries that are all readable files. *)



Hypothesis start_file_fresh : forall names n, ~ In n names -> start_file_error names n = None.




(** ** X7: images are converted to WebP, and an existing WebP is kept.
    For a [.jpg], [.jpeg], [.png] or [.bmp] file that decodes, and whose
    thumbnail saves without error, [FileHandler::clean] returns [Ok]:
    the input is removed; the thumbnail goes to [<name>.webp] when no
    such file exists, and to [<name>_<secs>.webp] otherwise, the
    existing [<name>.webp] staying as it was; no other path changes. *)
Theorem FileHandler_clean_image (p : Path) (fh : FileHandler) (e : string) (fs : FS)
  (sched : Schedule) (d : FileData) (img : Image) (bytes : list byte) :
  FileHandler_new p = Some fh -> In e ["jpg"; "jpeg"; "png"; "bmp"] -> path_extension p = Some e ->
  fs !! p = Some d -> image_decode p d = Ok img ->
  save_webp (thumbnail img (fst IMAGE_SIZE) (snd IMAGE_SIZE)) = (bytes, None) ->
  let webp := path_join (dir_path fh) (file_name fh +:+ ".webp") in
  let stamped := path_join (dir_path fh) (file_name fh +:+ "_" +:+ string_of_nat now_secs +:+ ".webp") in
  let fs' := (handleX fh fs sched).1 in
  (handleX fh fs sched).2 = HOk
  /\ fs' !! p = None
  /\ (fs !! webp = None -> fs' !! webp = Some (FRaw bytes) /\ fs' !! stamped = fs !! stamped)
  /\ (is_Some (fs !! webp) -> fs' !! webp = fs !! webp /\ fs' !! stamped = Some (FRaw bytes))
  /\ forall q, q <> p -> q <> webp -> q <> stamped -> fs' !! q = fs !! q.
Proof.
  intros Hn He Hx Hp Hd Hs webp stamped fs'. destruct (handler_path p fh e Hn Hx) as [Hfp Hpath].
  assert (Hwp : webp <> p).
  { rewrite Hpath. apply (ext_path_ne _ _ "webp" e).
    intros <-. destruct He as [H|[H|[H|[H|[]]]]]; discriminate H. }
  assert (Hsp : stamped <> p) by (rewrite Hpath; apply stamp_path_ne).
  assert (Hsw : stamped <> webp).
  { intros H. apply path_join_inj in H. apply (suffix_ne (file_name fh) ("_" +:+ string_of_nat now_secs +:+ ".webp") ".webp"); [cbn; discriminate|exact H]. }
  assert (Hres : handleX fh fs sched
                 = (delete p (<[if bool_decide (is_Some (fs !! webp)) then stamped else webp
                                := FRaw bytes]> fs), HOk)).
  { rewrite (clean_image fh fs sched e He) by congruence.
    unfold handle_image_file. rewrite Hfp, Hp, Hd, Hx.
    replace (ext_in (Some e) ["webp"]) with false
      by (destruct He as [<-|[<-|[<-|[<-|[]]]]]; reflexivity).
    fold webp. fold stamped. unfold save_webp_at. rewrite Hs.
    destruct (bool_decide (is_Some (fs !! webp))); cbn [negb];
      rewrite lookup_insert_ne by congruence; rewrite Hp; reflexivity. }
  subst fs'. rewrite Hres. cbn [fst snd]. split; [reflexivity|]. split; [apply lookup_delete_eq|].
  split; [|split].
  - intros Hw. rewrite bool_decide_eq_false_2 by (rewrite Hw; intros [? H]; discriminate H).
    rewrite !lookup_delete_ne by congruence. rewrite lookup_insert_eq.
    split; [reflexivity|]. apply lookup_insert_ne. congruence.
  - intros Hw. rewrite bool_decide_eq_true_2 by exact Hw.
    rewrite !lookup_delete_ne by congruence. rewrite lookup_insert_eq.
    split; [|reflexivity]. apply lookup_insert_ne. congruence.
  - intros q H1 H2 H3. rewrite lookup_delete_ne by congruence.
    destruct (bool_decide _); apply lookup_insert_ne; congruence.
Qed.




(** ** X10: videos: the input is removed once [ffmpeg] succeeds.
    For a [.mp4] or [.mkv] file, [FileHandler::clean] runs [ffmpeg] with
    [<name>.mp4] as output. When it exits with success the input is
    deleted and the result is [Ok]; when it exits with failure the
    result is the error [FFmpeg command failed: <stderr>] and nothing is
    deleted. For a [.mp4] input the output path is the input path, so
    after a successful run that path is removed: the converted video is
    deleted with the input. *)
Theorem FileHandler_clean_video (p : Path) (fh : FileHandler) (e : string) (fs fs1 : FS)
  (sched : Schedule) (ok : bool) (stderr : string) :
  FileHandler_new p = Some fh -> In e ["mp4"; "mkv"] -> path_extension p = Some e ->
  run_ffmpeg fs p (path_join (dir_path fh) (file_name fh +:+ ".mp4")) = (fs1, Ok (ok, stderr)) ->
  (ok = false -> handleX fh fs sched = (fs1, HErr ("FFmpeg command failed: " +:+ stderr)))
  /\ (ok = true -> is_Some (fs1 !! p) -> handleX fh fs sched = (delete p fs1, HOk))
  /\ (e = "mp4" -> path_join (dir_path fh) (file_name fh +:+ ".mp4") = p
      /\ (ok = true -> is_Some (fs1 !! p) ->
          (handleX fh fs sched).1 !! path_join (dir_path fh) (file_name fh +:+ ".mp4") = None)).
Proof.
  intros Hn He Hx Hr. destruct (handler_path p fh e Hn Hx) as [Hfp Hpath].
  assert (Hv : handleX fh fs sched = videoX fh fs) by (apply (clean_video fh fs sched e He); congruence).
  assert (Hok : ok = true -> is_Some (fs1 !! p) -> handleX fh fs sched = (delete p fs1, HOk)).
  { intros -> [x Hx1]. rewrite Hv. unfold handle_video_file. rewrite Hfp, Hr. cbn [negb].
    now rewrite Hx1. }
  split; [|split; [exact Hok|]].
  - intros ->. rewrite Hv. unfold handle_video_file. rewrite Hfp, Hr. reflexivity.
  - intros ->. assert (Ho : path_join (dir_path fh) (file_name fh +:+ ".mp4") = p) by exact (eq_sym Hpath).
    split; [exact Ho|]. intros Ht Hs. rewrite (Hok Ht Hs), Ho. apply lookup_delete_eq.
Qed.

(** ** X11: [.rar] files: the converted zip is not cleaned either.
    When [rar_to_zip] fails, [FileHandler::clean] returns [Failed to
    extract RAR file: <e>]. When it succeeds, the cleaning step runs on
    the [.rar] file, which is not a zip container: the result is [Ok]
    and the file system is the one [rar_to_zip] left. *)
Theorem FileHandler_clean_rar (p : Path) (fh : FileHandler) (fs fs1 : FS) (sched : Schedule)
  (r : HandlerResult) :
  FileHandler_new p = Some fh -> path_extension p = Some "rar" ->
  rar_to_zip fh (path_join (dir_path fh) (file_name fh +:+ ".zip")) fs = (fs1, r) ->
  (forall e, r = HErr e -> handleX fh fs sched = (fs1, HErr ("Failed to extract RAR file: " +:+ e)))
  /\ (r = HOk -> forall bs, fs1 !! p = Some (FRaw bs) -> handleX fh fs sched = (fs1, HOk)).
Proof.
  intros Hn Hx Hr. destruct (handler_path p fh "rar" Hn Hx) as [Hfp _].
  rewrite clean_rar by congruence. unfold handle_rar_file. rewrite Hr.
  split.
  - intros e ->. reflexivity.
  - intros -> bs Hb. apply zip_on_raw with bs. congruence.
Qed.

(** ** X12: a missing input file.
    When the input is missing, [FileHandler::clean] leaves the file
    system as it is for the archive, tar and image arms; it reports [Ok]
    for a [.zip] (the cleaner's [NotFound] is swallowed) and an error for
    the others. *)
Theorem FileHandler_clean_missing (fh : FileHandler) (e : string) (fs : FS) (sched : Schedule) :
  In e ["zip"; "tar"; "gz"; "jpg"; "jpeg"; "png"; "bmp"; "gif"] ->
  path_extension (file_path fh) = Some e -> fs !! file_path fh = None ->
  (handleX fh fs sched).1 = fs
  /\ ((handleX fh fs sched).2 = HOk <-> e = "zip").
Proof.
  intros He Hx Hm.
  destruct He as [<-|[<-|[<-|He]]].
  - rewrite clean_zip by exact Hx. unfold handle_zip_file, FileHandler_clean_archive_file,
      clean_archive_file, read_images_from_archive. cbn [archive_path ArchiveCleaner_new].
    rewrite Hm. cbn. tauto.
  - rewrite (clean_tar fh fs sched "tar") by (cbn; tauto || exact Hx).
    unfold handle_tar_file, tar_to_zip. rewrite Hm. cbn. split; [reflexivity|].
    split; [discriminate|intros H; discriminate H].
  - rewrite (clean_tar fh fs sched "gz") by (cbn; tauto || exact Hx).
    unfold handle_tar_file, tar_to_zip. rewrite Hm. cbn. split; [reflexivity|].
    split; [discriminate|intros H; discriminate H].
  - assert (Hne : e <> "zip") by (intros ->; destruct He as [H|[H|[H|[H|[H|[]]]]]]; discriminate H).
    assert (Hcase : In e ["jpg"; "jpeg"; "png"; "bmp"] \/ e = "gif")
      by (destruct He as [<-|[<-|[<-|[<-|[<-|[]]]]]]; cbn; tauto).
    destruct Hcase as [Hi| ->].
    + rewrite (clean_image fh fs sched e Hi Hx). unfold handle_image_file. rewrite Hm. cbn.
      split; [reflexivity|]. split; [discriminate|intros H; exfalso; exact (Hne H)].
    + rewrite clean_gif by exact Hx. unfold handle_gif_file. rewrite Hm. cbn.
      split; [reflexivity|]. split; [discriminate|intros H; discriminate H].
Qed.

(* Every message of the handlers starts with [F]. *)

Lemma zip_no_err (fh : FileHandler) (fs : FS) (sched : Schedule) (m : string) :
  (zipX fh fs sched).2 <> HErr m.
Proof.
  unfold handle_zip_file, FileHandler_clean_archive_file.
  destruct (cleanY _ 5 fs sched) as [fs' [|e|]]; discriminate.
Qed.

Lemma rar_not_unsupported (fh : FileHandler) (fs : FS) (sched : Schedule) (s : string) :
  (rarX fh fs sched).2 <> HErr ("Unsupported file format: " +:+ s).
Proof.
  unfold handle_rar_file. destruct (rar_to_zip _ _ _) as [fs1 [|e|]].
  - apply zip_no_err.
  - intros H. injection H as H. cbn in H. discriminate H.
  - discriminate.
Qed.

Lemma tar_not_unsupported (fh : FileHandler) (fs : FS) (sched : Schedule) (s : string) :
  (tarX fh fs sched).2 <> HErr ("Unsupported file format: " +:+ s).
Proof.
  unfold handle_tar_file. destruct (tar_to_zip _ _ _ _) as [fs1 [u|e]].
  - apply zip_no_err.
  - intros H. injection H as H. cbn in H. discriminate H.
Qed.

Lemma image_not_unsupported (fh : FileHandler) (fs : FS) :
  forall s, (imageX fh fs).2 <> HErr ("Unsupported file format: " +:+ s).
Proof. unfold handle_image_file, save_webp_at. intros s; repeat (case_match; cbn [fst snd]);
  try discriminate; try (intros H; injection H as H; cbn in H; discriminate H). Qed.

Lemma gif_not_unsupported (fh : FileHandler) (fs : FS) :
  forall s, (gifX fh fs).2 <> HErr ("Unsupported file format: " +:+ s).
Proof. unfold handle_gif_file. intros s; repeat (case_match; cbn [fst snd]);
  try discriminate; try (intros H; injection H as H; cbn in H; discriminate H). Qed.

Lemma video_not_unsupported (fh : FileHandler) (fs : FS) :
  forall s, (videoX fh fs).2 <> HErr ("Unsupported file format: " +:+ s).
Proof. unfold handle_video_file. intros s; repeat (case_match; cbn [fst snd]);
  try discriminate; try (intros H; injection H as H; cbn in H; discriminate H). Qed.

(** ** X13: [webp] is listed as supported but not handled.
    [get_supported_extensions] lists [webp], yet [FileHandler::clean]
    answers a [.webp] file, like a file whose extension is missing or
    not listed, with [Unsupported file format: <path>] and changes
    nothing. Every other listed extension is handled: its result is never
    that error. *)
Theorem supported_extensions_dispatch (fh : FileHandler) (fs : FS) (sched : Schedule) :
  In "webp" get_supported_extensions
  /\ ((path_extension (file_path fh) = Some "webp"
       \/ forall e, path_extension (file_path fh) = Some e -> ~ In e get_supported_extensions) ->
      handleX fh fs sched = (fs, HErr ("Unsupported file format: " +:+ path_display (file_path fh))))
  /\ (forall e, In e get_supported_extensions -> e <> "webp" ->
      path_extension (file_path fh) = Some e ->
      forall s, (handleX fh fs sched).2 <> HErr ("Unsupported file format: " +:+ s)).
Proof.
  split; [cbn; tauto|]. split.
  - intros Hx. unfold FileHandler_clean.
    destruct Hx as [Hx|Hx]; [rewrite Hx; reflexivity|].
    destruct (path_extension (file_path fh)) as [e|]; [|reflexivity].
    specialize (Hx e eq_refl). unfold ext_in.
    repeat match goal with |- context [existsb (String.eqb e) ?l] =>
      replace (existsb (String.eqb e) l) with false
        by (symmetry; apply not_true_iff_false; rewrite existsb_exists;
            intros (x & Hin & Heq); apply String.eqb_eq in Heq; subst x;
            apply Hx; cbn in Hin |- *; tauto) end.
    reflexivity.
  - intros e Hin Hw Hx s.
    destruct Hin as [<-|[<-|[<-|[<-|[<-|[<-|[<-|[<-|[<-|[<-|[<-|[<-|[<-|[<-|[]]]]]]]]]]]]]]];
      [ rewrite clean_zip by exact Hx; apply zip_no_err
      | rewrite clean_rar by exact Hx; apply rar_not_unsupported
      | rewrite (clean_tar fh fs sched "tar") by (cbn; tauto || exact Hx); apply tar_not_unsupported
      | rewrite (clean_tar fh fs sched "gz") by (cbn; tauto || exact Hx); apply tar_not_unsupported
      | rewrite (clean_image fh fs sched "jpg") by (cbn; tauto || exact Hx); apply image_not_unsupported
      | rewrite (clean_image fh fs sched "jpeg") by (cbn; tauto || exact Hx); apply image_not_unsupported
      | rewrite (clean_image fh fs sched "png") by (cbn; tauto || exact Hx); apply image_not_unsupported
      | rewrite (clean_image fh fs sched "bmp") by (cbn; tauto || exact Hx); apply image_not_unsupported
      | rewrite clean_gif by exact Hx; apply gif_not_unsupported
      | contradiction
      | rewrite (clean_video fh fs sched "mp4") by (cbn; tauto || exact Hx); apply video_not_unsupported
      | rewrite (clean_video fh fs sched "mkv") by (cbn; tauto || exact Hx); apply video_not_unsupported
      | rewrite (clean_subtitle fh fs sched "srt") by (cbn; tauto || exact Hx); discriminate
      | rewrite (clean_subtitle fh fs sched "ass") by (cbn; tauto || exact Hx); discriminate ].
Qed.

End HandlerExtras.

(* ------------------------------------------------------------------ *)
(** ** Concrete runs *)

Lemma pair_snd {A B : Type} (p : A * B) (b : B) : p.2 = b -> p = (p.1, b).
Proof. destruct p. cbn. congruence. Qed.

Lemma is_image_case_sensitive_witness :
  is_image ("p" +:+ ".PNG") = false
  /\ read_entries demo_decode [Entry ("p" +:+ ".PNG") Deflated (Some [x04])] = Ok [].
Proof.
  destruct (is_image_case_sensitive demo_decode "p" ".PNG" ".png" Deflated (Some [x04]) []
              ltac:(cbn; tauto) ltac:(reflexivity) ltac:(discriminate)) as [H1 H2].
  split; [exact H1|]. rewrite H2. reflexivity.
Defined.

Lemma should_write_archive_first_match_witness :
  (should_write_archive (ArchiveCleaner_new book_zip) [mk_img 800 1000; mk_img 1100 1100] 5).1
  = true.
Proof.
  pose proof (should_write_archive_first_match (ArchiveCleaner_new book_zip)
                [mk_img 800 1000; mk_img 1100 1100] 5) as H.
  assert (Hd : Forall u32_dims [mk_img 800 1000; mk_img 1100 1100])
    by (constructor; [|constructor; [|constructor]]; unfold u32_dims, u32_modulus; cbn; lia).
  specialize (H Hd). vm_compute in H. exact (proj1 H).
Defined.

Lemma clean_archive_file_untouched_witness :
  (demo_clean book_zip fs_small demo_sched).1 = fs_small.
Proof.
  apply (clean_archive_file_untouched demo_decode demo_encode demo_resize demo_thumbnail
           demo_to_rgba8 (ArchiveCleaner_new book_zip) 5 fs_small demo_sched).
  intros imgs Himgs. vm_compute in Himgs. injection Himgs as <-. reflexivity.
Defined.

Lemma scenario1_no_rewrite_witness :
  demo_clean book_zip fs_scenario1 demo_sched = (fs_scenario1, ROk).
Proof.
  exact (proj2 (scenario1_no_rewrite demo_decode demo_encode demo_resize demo_thumbnail
                  demo_to_rgba8 book_zip fs_scenario1 demo_sched
                  [mk_img 800 1000; mk_img 800 1100; mk_img 800 1050]
                  ltac:(vm_compute; reflexivity) ltac:(reflexivity))).
Defined.

(** C2: in scenario 1 the 800x1100 page is no wider than the 1024
    threshold, so no page qualifies and the archive is not rewritten. *)
Lemma scenario1_cex :
  image_meets_criteria (ArchiveCleaner_new book_zip) 800 1100 = false
  /\ (should_write_archive (ArchiveCleaner_new book_zip)
        [mk_img 800 1000; mk_img 800 1100; mk_img 800 1050] 5).1 = false
  /\ (demo_clean book_zip fs_scenario1 demo_sched).2 = ROk
  /\ (demo_clean book_zip fs_scenario1 demo_sched).1 !! book_zip = fs_scenario1 !! book_zip
  /\ (demo_clean book_zip fs_scenario1 demo_sched).1 !! book_cbz = None.
Proof. repeat split; vm_compute; reflexivity. Qed.



Lemma paged_compute_under_lock_witness :
  held_during false [Lock; CheckCriteria; Resize; Encode; StartFile; WriteData; Unlock] Resize
  = true.
Proof.
  exact (proj1 (paged_compute_under_lock demo_decode demo_encode demo_resize demo_thumbnail
                  demo_to_rgba8 (ArchiveCleaner_new book_zip) [mk_img 1100 1100; mk_img 1100 1100] demo_mutex
                  demo_sched 1 [Lock; CheckCriteria; Resize; Encode; StartFile; WriteData; Unlock]
                  ltac:(vm_compute; right; left; reflexivity))
           ltac:(cbn; tauto)).
Defined.

Lemma paged_lock_failure_fatal_witness :
  (process_non_manhwa_images demo_encode demo_thumbnail demo_to_rgba8
     (ArchiveCleaner_new book_zip) [mk_img 1100 1100; mk_img 1100 1100] fs_paged
     panic0_sched).2 = RPanic.
Proof.
  apply (paged_lock_failure_fatal demo_encode demo_thumbnail demo_to_rgba8
           (ArchiveCleaner_new book_zip) [mk_img 1100 1100; mk_img 1100 1100] fs_paged
           panic0_sched "book" ["lib"] 1 ltac:(reflexivity)).
  vm_compute. right. left. reflexivity.
Defined.

Lemma strip_transform_witness :
  exists canvas, combine_images demo_resize demo_to_rgba8 [mk_img 700 2200; mk_img 700 2300]
                 = Some canvas
  /\ width canvas = 700 /\ height canvas = 4500.
Proof.
  destruct (strip_transform demo_decode demo_encode demo_resize demo_thumbnail demo_to_rgba8
              ltac:(intros; split; reflexivity) ltac:(intros; split; reflexivity)
              (ArchiveCleaner_new book_zip) [mk_img 700 2200; mk_img 700 2300]
              ltac:(constructor; [|constructor; [|constructor]]; unfold u32_modulus; cbn; lia)
              ltac:(cbn; lia) ltac:(cbn; unfold u32_modulus; lia))
    as (canvas & nb & Hc & Hw & Hh & _).
  exists canvas. split; [exact Hc|]. split; [exact Hw|exact Hh].
Defined.

Lemma paged_skip_no_entry_witness :
  exists es,
    (process_non_manhwa_images demo_encode demo_thumbnail demo_to_rgba8
       (ArchiveCleaner_new book_cbz) [mk_img 1100 1100; mk_img 800 1000] fs_mixed demo_sched).1
      !! book_cbz = Some (FZip es)
    /\ ~ In "2.webp" (entry_names es).
Proof.
  destruct (paged_skip_no_entry demo_encode demo_thumbnail demo_to_rgba8 (ArchiveCleaner_new book_cbz)
              [mk_img 1100 1100; mk_img 800 1000] fs_mixed
              (process_non_manhwa_images demo_encode demo_thumbnail demo_to_rgba8
                 (ArchiveCleaner_new book_cbz) [mk_img 1100 1100; mk_img 800 1000] fs_mixed
                 demo_sched).1
              demo_sched "book" ["lib"] 1 (mk_img 800 1000) ltac:(reflexivity) ltac:(reflexivity)
              ltac:(vm_compute; reflexivity)) as [_ H].
  exact (H (pair_snd _ _ ltac:(vm_compute; reflexivity))).
Defined.

(** ** C8: a skipped page is lost from the rewritten archive.
    A paged pass over [lib/book.cbz] whose first page, 1100x1100,
    qualifies and whose second page, 800x1000, does not: the second
    worker returns [Err("Processing error")], the pass still renames the
    temporary container, and [lib/book.cbz] is replaced by an archive that
    holds the first page only. *)
Theorem skipped_page_lost :
  fs_mixed !! book_cbz
    = Some (FZip [Entry "1.png" Deflated (Some [x04]); Entry "2.png" Deflated (Some [x01])])
  /\ (process_images_threaded demo_encode demo_thumbnail demo_to_rgba8
        (ArchiveCleaner_new book_cbz) [mk_img 1100 1100; mk_img 800 1000]
        {| mx_poisoned := false;
           mx_writer := {| zw_path := ["lib"; "book.temp.cbz"]; zw_entries := [] |} |}
        demo_sched).1.2
     = [(0%nat, WOk); (1%nat, WErr (Other "Processing error"))]
  /\ (demo_clean book_cbz fs_mixed demo_sched).2 = ROk
  /\ (demo_clean book_cbz fs_mixed demo_sched).1 !! book_cbz
     = Some (FZip [Entry "1.webp" Stored (Some [x00])]).
Proof. vm_compute. repeat split. Qed.

(* ------------------------------------------------------------------ *)
(** ** Concrete runs of the further properties *)

Lemma extract_file_info_split_witness :
  extract_file_info ["lib"; "a.tar.gz"] = Ok ("a.tar", ["lib"])
  /\ extract_file_info ["lib"; "README"] = Ok ("README", ["lib"]).
Proof.
  destruct extract_file_info_split as [H1 [H2 _]]. split.
  - exact (H1 ["lib"] "a.tar" "gz" ltac:(cbn; intuition discriminate) ltac:(discriminate)).
  - exact (H2 ["lib"] "README" ltac:(cbn; intuition discriminate)).
Defined.




Lemma FileHandler_clean_zip_witness :
  (demo_clean book_zip empty demo_sched).2 = RErr (Other "Failed to read images from archive")
  /\ demo_handle (demo_fh book_zip) empty demo_sched = (empty, HOk).
Proof.
  split; [reflexivity|].
  unfold demo_handle.
  rewrite (FileHandler_clean_zip demo_decode demo_encode demo_resize demo_thumbnail demo_to_rgba8
             demo_tar_entries demo_start_file_error demo_rar_to_zip demo_image_decode demo_save
             demo_save demo_ffmpeg 42 book_zip (demo_fh book_zip) empty demo_sched
             ltac:(reflexivity) ltac:(reflexivity)).
  reflexivity.
Defined.


Lemma FileHandler_clean_image_witness :
  (demo_handle (demo_fh cover_png) fs_covers demo_sched).2 = HOk
  /\ (demo_handle (demo_fh cover_png) fs_covers demo_sched).1 !! cover_png = None
  /\ (demo_handle (demo_fh cover_png) fs_covers demo_sched).1 !! cover_webp = Some (FRaw [x01])
  /\ (demo_handle (demo_fh cover_png) fs_covers demo_sched).1 !! cover_42_webp = Some (FRaw [x00]).
Proof.
  destruct (FileHandler_clean_image demo_decode demo_encode demo_resize demo_thumbnail demo_to_rgba8
              demo_tar_entries demo_start_file_error demo_rar_to_zip demo_image_decode demo_save
              demo_save demo_ffmpeg 42 cover_png (demo_fh cover_png) "png" fs_covers demo_sched
              (FRaw [x04]) (mk_img 1100 1100) [x00]
              ltac:(reflexivity) ltac:(cbn; tauto) ltac:(reflexivity) ltac:(reflexivity)
              ltac:(reflexivity) ltac:(reflexivity)) as (H1 & H2 & _ & H4 & _).
  destruct (H4 ltac:(exists (FRaw [x01]); reflexivity)) as [Hw Hs].
  split; [exact H1|]. split; [exact H2|]. split; [|exact Hs].
  exact (eq_trans Hw eq_refl).
Defined.


Lemma FileHandler_clean_video_witness :
  (FileHandler_clean demo_decode demo_encode demo_resize demo_thumbnail demo_to_rgba8
     demo_tar_entries demo_start_file_error demo_rar_to_zip demo_image_decode demo_save demo_save
     demo_ffmpeg_ok 42 (demo_fh movie_mp4) fs_mp4 demo_sched).1 !! movie_mp4 = None.
Proof.
  destruct (FileHandler_clean_video demo_decode demo_encode demo_resize demo_thumbnail demo_to_rgba8
              demo_tar_entries demo_start_file_error demo_rar_to_zip demo_image_decode demo_save
              demo_save demo_ffmpeg_ok 42 movie_mp4 (demo_fh movie_mp4) "mp4" fs_mp4
              (<[movie_mp4 := FRaw [x00]]> fs_mp4) demo_sched true ""
              ltac:(reflexivity) ltac:(cbn; tauto) ltac:(reflexivity) ltac:(reflexivity))
    as (_ & _ & H3).
  exact (proj2 (H3 eq_refl) eq_refl ltac:(exists (FRaw [x00]); reflexivity)).
Defined.

Lemma FileHandler_clean_rar_witness :
  demo_handle (demo_fh book_rar) empty demo_sched
  = (empty, HErr ("Failed to extract RAR file: " +:+ "unrar is not available")).
Proof.
  destruct (FileHandler_clean_rar demo_decode demo_encode demo_resize demo_thumbnail demo_to_rgba8
              demo_tar_entries demo_start_file_error demo_rar_to_zip demo_image_decode demo_save
              demo_save demo_ffmpeg 42 book_rar (demo_fh book_rar) empty empty demo_sched
              (HErr "unrar is not available")
              ltac:(reflexivity) ltac:(reflexivity) ltac:(reflexivity)) as [H _].
  exact (H _ eq_refl).
Defined.

Lemma FileHandler_clean_missing_witness :
  (demo_handle (demo_fh cover_png) empty demo_sched).1 = empty
  /\ ((demo_handle (demo_fh cover_png) empty demo_sched).2 = HOk <-> "png" = "zip").
Proof.
  exact (FileHandler_clean_missing demo_decode demo_encode demo_resize demo_thumbnail demo_to_rgba8
           demo_tar_entries demo_start_file_error demo_rar_to_zip demo_image_decode demo_save
           demo_save demo_ffmpeg 42 (demo_fh cover_png) "png" empty demo_sched
           ltac:(cbn; tauto) ltac:(reflexivity) ltac:(reflexivity)).
Defined.

Lemma supported_extensions_dispatch_witness :
  demo_handle (demo_fh cover_webp) fs_covers demo_sched
  = (fs_covers, HErr ("Unsupported file format: " +:+ "lib/cover.webp")).
Proof.
  destruct (supported_extensions_dispatch demo_decode demo_encode demo_resize demo_thumbnail
              demo_to_rgba8 demo_tar_entries demo_start_file_error demo_rar_to_zip demo_image_decode
              demo_save demo_save demo_ffmpeg 42 (demo_fh cover_webp) fs_covers demo_sched)
    as (_ & H & _).
  exact (H (or_introl eq_refl)).
Defined.


